(** * Message reconciliation in [AppProvider.tsx]

    A shallow embedding of the message flows of the chat client:
    the HTTP gateway ([ApiClient] and [messagesService]) and the three
    context operations [loadMessages], [sendMessage] and [deleteMessage]
    of [AppProvider], together with the properties the specification
    states about them. *)

From stdpp Require Import base option list strings gmap pretty.
From stdpp Require Import sorting.
From Stdlib Require OrderedTypeEx.

Local Open Scope string_scope.
Local Open Scope Z_scope.
Local Open Scope list_scope.

(** ** Data model *)

(** A message object as the code reads it.  Every property the code touches
    is a field; [uuid] may be absent ([undefined] in the source), which the
    strict comparisons [===] and [!==] treat as a value of its own. *)
Record Message := {
  uuid : option string;
  text : string;
  createdAt : string;
  outgoing : bool
}.

Global Instance Message_eq_dec : EqDecision Message.
Proof. solve_decision. Defined.

(** A settled promise: resolved with a value or rejected with the message
    of the thrown [Error]. *)
Inductive outcome (A : Type) : Type :=
  | Resolved (a : A)
  | Rejected (e : string).
Arguments Resolved {A} a.
Arguments Rejected {A} e.

(** JavaScript's [a || b] on strings: the empty string is falsy, as are
    [undefined] and [null]. *)
Definition or_else (a : option string) (b : string) : string :=
  match a with
  | Some s => if bool_decide (s = "")%string then b else s
  | None => b
  end.

(** ** The merge performed by [loadMessages]

    [[...fetchedMessages,
       ...localMessages.filter((localMsg) =>
          !fetchedMessages.some((msg) => msg.uuid === localMsg.uuid))]] *)
Definition some {A} (f : A → bool) (l : list A) : bool := existsb f l.

Definition merge (fetchedMessages localMessages : list Message) : list Message :=
  fetchedMessages ++
  filter (λ localMsg,
            negb (some (λ msg, bool_decide (uuid msg = uuid localMsg))
                       fetchedMessages))
         localMessages.

(** Lexicographic order on ISO-8601 strings as [Date.prototype.toISOString]
    prints them (UTC, fixed width): it is the chronological order. *)
Definition createdAt_le (a b : Message) : Prop :=
  String.leb (createdAt a) (createdAt b) = true.

(** ** The HTTP gateway: [ApiClient]

    The transport is outside the program: [fetch] is a function from the
    call the client issues to what the network answers.  Bodies are kept as
    the values handed to [JSON.stringify] and produced by
    [response.json()]; the wire format plays no part in the client. *)
Module ApiClient.

(** The singleton returned by [ApiClient.getInstance()]. *)
Record t := { baseUrl : string; apiKey : string }.

(** A request payload: an object whose properties are strings. *)
Definition Json := list (string * string).

(** The [options] object of [request] and the second argument of
    [fetch]: [method], [body] and [headers], each possibly absent. *)
Record RequestInit := {
  method : option string;
  body : option Json;
  headers : gmap string string
}.

Record FetchCall := { url : string; init : RequestInit }.

(** What a successful response parses to: the fields the callers read. *)
Record ApiResponse := {
  messages : option (list Message);
  message : option Message;
  response_uuid : option string
}.

(** The parsed body of a non-2xx response, when it is not [null]:
    [errorData.message].  A body that is a string, a number or an array has
    no such property and reads as an object without one. *)
Record ErrorData := { error_message : option string }.

(** What [fetch] settles with.  The body of a non-2xx response parses to
    [null] ([None]) or to a value whose [message] can be read. *)
Inductive FetchResult :=
  | FetchRejected (reason : string)
  | ResponseOk (json : outcome ApiResponse)
  | ResponseNotOk (status : Z) (json : outcome (option ErrorData)).

Definition fetch := FetchCall → FetchResult.

(** The second argument some callers pass to [get]. *)
Record GetConfig := { params : list (string * Z) }.

Definition status_error (status : Z) : string :=
  "API request failed with status " +:+ pretty status.

(** The message of the [TypeError] that reading [errorData.message] throws
    when [errorData] is [null], in V8's wording; engines word it
    differently and no caller reads it. *)
Definition null_body_error : string :=
  "Cannot read properties of null (reading 'message')".

(** [const url = `${this.baseUrl}${endpoint}`; const headers =
    { Authorization: `Bearer ${this.apiKey}`, ...options.headers };
    fetch(url, { ...options, headers })]: in an object spread the later
    keys win, which is the left-biased union with the later object on the
    left. *)
Definition fetch_call (client : t) (endpoint : string)
    (options : RequestInit) : FetchCall :=
  {| url := baseUrl client +:+ endpoint;
     init := {| method := method options;
                body := body options;
                headers := headers options ∪
                           {[ "Authorization" := "Bearer " +:+ apiKey client ]} |} |}.

(** [request]: the inner [try] turns an unreadable error body into the
    status message; reading [message] off a [null] body throws outside that
    [try]; the outer [catch] logs and rethrows. *)
Definition request (client : t) (net : fetch) (endpoint : string)
    (options : RequestInit) : outcome ApiResponse :=
  match net (fetch_call client endpoint options) with
  | FetchRejected reason => Rejected reason
  | ResponseNotOk status (Rejected _) => Rejected (status_error status)
  | ResponseNotOk status (Resolved None) => Rejected null_body_error
  | ResponseNotOk status (Resolved (Some errorData)) =>
      Rejected (or_else (error_message errorData) (status_error status))
  | ResponseOk json => json
  end.

(** [async get(endpoint)] declares one parameter: whatever else a caller
    passes is dropped by the language. *)
Definition get (client : t) (net : fetch) (endpoint : string)
    (_ : option GetConfig) : outcome ApiResponse :=
  request client net endpoint
    {| method := Some "GET"; body := None; headers := ∅ |}.

Definition json_headers : gmap string string :=
  {[ "Content-Type" := "application/json" ]}.

Definition post (client : t) (net : fetch) (endpoint : string)
    (data : option Json) : outcome ApiResponse :=
  request client net endpoint
    {| method := Some "POST"; body := data; headers := json_headers |}.

(** [JSON.stringify(undefined)] is [undefined]: no body. *)
Definition delete (client : t) (net : fetch) (endpoint : string)
    (data : option Json) : outcome ApiResponse :=
  request client net endpoint
    {| method := Some "DELETE"; body := data; headers := json_headers |}.

End ApiClient.

(** ** [messagesService] *)
Module messagesService.
Import ApiClient.

Definition getMessages (client : t) (net : fetch) (contactUUID : string)
    : outcome ApiResponse :=
  get client net ("/contacts/" +:+ contactUUID +:+ "/messages")
      (Some {| params := [("limit", 100)] |}).

Definition sendMessage (client : t) (net : fetch)
    (contactUUID text : string) : outcome ApiResponse :=
  post client net ("/contacts/" +:+ contactUUID +:+ "/conversation/note")
       (Some [("text", text)]).

Definition deleteMessage (client : t) (net : fetch) (messageUUID : string)
    : outcome ApiResponse :=
  delete client net ("/messages/" +:+ messageUUID) None.

End messagesService.

(** ** The provider: state, storage and asynchronous flows *)
Module AppProvider.

(** The React state the message flows touch ([conversations] and
    [currentContact] are never read or written by them) and the contents of
    [AsyncStorage].  A stored item is kept as the array it parses to:
    [JSON.parse (JSON.stringify xs)] is [xs] for arrays of message objects. *)
Record World := {
  messages : list Message;
  loading : bool;
  error : option string;
  storage : gmap string (list Message)
}.

(** What the outside answers during one call: the gateway instance and the
    network behind it, the two clock readings [Date.now()] and
    [new Date().toISOString()], and whether [AsyncStorage] rejects. *)
Record Env := {
  client : ApiClient.t;
  net : ApiClient.fetch;
  Date_now : Z;
  Date_toISOString : string;
  getItem_rejects : option string;
  setItem_rejects : option string
}.

(** One run of an [async] function on its own: how its promise settles, the
    state it leaves, and the state at the instant of each [await], in
    order, as this flow's own writes make it.  State written before a
    [throw] stays written.  What another flow started beside it writes in
    the meantime is not part of a run. *)
Record Run (A : Type) := {
  settled : outcome A;
  final : World;
  suspended : list World
}.
Arguments settled {A} _.
Arguments final {A} _.
Arguments suspended {A} _.

Definition Async (A : Type) : Type := World → Run A.

Definition async_ret {A} (a : A) : Async A :=
  λ w, {| settled := Resolved a; final := w; suspended := [] |}.

Definition async_bind {A B} (f : A → Async B) (m : Async A) : Async B :=
  λ w,
    match m w with
    | {| settled := Resolved a; final := w1; suspended := tr |} =>
        match f a w1 with
        | {| settled := s; final := w2; suspended := tr' |} =>
            {| settled := s; final := w2; suspended := tr ++ tr' |}
        end
    | {| settled := Rejected e; final := w1; suspended := tr |} =>
        {| settled := Rejected e; final := w1; suspended := tr |}
    end.

#[global] Instance Async_ret : MRet Async := @async_ret.
#[global] Instance Async_bind : MBind Async := @async_bind.

(** [await p]: the flow is suspended in the current state, then continues
    with the value of [p] or throws its rejection. *)
Definition await {A} (p : outcome A) : Async A :=
  λ w, {| settled := p; final := w; suspended := [w] |}.

(** [try { body } catch (err) { handler } finally { fin }]. *)
Definition try_catch_finally {A} (body : Async A) (handler : string → Async A)
    (fin : Async ()) : Async A :=
  λ w,
    let after_catch :=
      match body w with
      | {| settled := Resolved a; final := w1; suspended := tr |} =>
          {| settled := Resolved a; final := w1; suspended := tr |}
      | {| settled := Rejected e; final := w1; suspended := tr |} =>
          match handler e w1 with
          | {| settled := s; final := w2; suspended := tr' |} =>
              {| settled := s; final := w2; suspended := tr ++ tr' |}
          end
      end in
    match after_catch with
    | {| settled := s; final := w2; suspended := tr |} =>
        match fin w2 with
        | {| settled := Resolved _; final := w3; suspended := tr' |} =>
            {| settled := s; final := w3; suspended := tr ++ tr' |}
        | {| settled := Rejected e; final := w3; suspended := tr' |} =>
            {| settled := Rejected e; final := w3; suspended := tr ++ tr' |}
        end
    end.

Definition setLoading (b : bool) : Async () :=
  λ w, {| settled := Resolved ();
          final := {| messages := messages w; loading := b;
                      error := error w; storage := storage w |};
          suspended := [] |}.

Definition setError (e : option string) : Async () :=
  λ w, {| settled := Resolved ();
          final := {| messages := messages w; loading := loading w;
                      error := e; storage := storage w |};
          suspended := [] |}.

(** [setMessages(updater)]; [setMessages(value)] is the constant updater. *)
Definition setMessages (updater : list Message → list Message) : Async () :=
  λ w, {| settled := Resolved ();
          final := {| messages := updater (messages w); loading := loading w;
                      error := error w; storage := storage w |};
          suspended := [] |}.

(** [await AsyncStorage.getItem(key)]: [null] when nothing is stored. *)
Definition getItem (env : Env) (key : string) : Async (option (list Message)) :=
  λ w, await (match getItem_rejects env with
              | Some e => Rejected e
              | None => Resolved (storage w !! key)
              end) w.

(** [await AsyncStorage.setItem(key, JSON.stringify(value))]. *)
Definition setItem (env : Env) (key : string) (value : list Message) : Async () :=
  λ w,
    match setItem_rejects env with
    | Some e => await (Rejected e) w
    | None =>
        {| settled := Resolved ();
           final := {| messages := messages w; loading := loading w;
                       error := error w;
                       storage := <[key := value]> (storage w) |};
           suspended := [w] |}
    end.

Definition storage_key (contactUUID : string) : string :=
  "messages_" +:+ contactUUID.

(** The object built when the response carries no [message]. *)
Definition fallbackMessage (env : Env) (response : ApiClient.ApiResponse)
    (text : string) : Message :=
  {| uuid := Some (or_else (ApiClient.response_uuid response)
                           (pretty (Date_now env)));
     text := text;
     createdAt := Date_toISOString env;
     outgoing := true |}.

Definition sendMessage (env : Env) (contactUUID text : string)
    : Async (option Message) :=
  setLoading true;;
  setError None;;
  try_catch_finally
    (response ← await (messagesService.sendMessage (client env) (net env)
                                                   contactUUID text);
     let newMessage :=
       default (fallbackMessage env response text)
               (ApiClient.message response) in
     setMessages (λ prev, prev ++ [newMessage]);;
     storedMessages ← getItem env (storage_key contactUUID);
     let messages := default [] storedMessages in
     setItem env (storage_key contactUUID) (messages ++ [newMessage]);;
     mret (Some newMessage))
    (λ err, setError (Some "Failed to send message");; mret None)
    (setLoading false).

Definition loadMessages (env : Env) (contactUUID : string)
    : Async (list Message) :=
  setLoading true;;
  setError None;;
  try_catch_finally
    (response ← await (messagesService.getMessages (client env) (net env)
                                                   contactUUID);
     let fetchedMessages := default [] (ApiClient.messages response) in
     storedMessages ← getItem env (storage_key contactUUID);
     let fetchedMessages :=
       match storedMessages with
       | Some localMessages => merge fetchedMessages localMessages
       | None => fetchedMessages
       end in
     setMessages (λ _, fetchedMessages);;
     mret fetchedMessages)
    (λ err, setError (Some "Failed to load messages");; mret [])
    (setLoading false).

Definition deleteMessage (env : Env) (messageUUID : string) : Async bool :=
  setLoading true;;
  setError None;;
  try_catch_finally
    (await (messagesService.deleteMessage (client env) (net env) messageUUID);;
     setMessages (λ prev,
       filter (λ msg, negb (bool_decide (uuid msg = Some messageUUID))) prev);;
     mret true)
    (λ err, setError (Some "Failed to delete message");; mret false)
    (setLoading false).

End AppProvider.

(** ** Concrete data used by the examples *)
Module Sample.
Import AppProvider.

Definition gateway : ApiClient.t :=
  {| ApiClient.baseUrl := "https://api.example"; ApiClient.apiKey := "k" |}.

Definition w0 : World :=
  {| messages := []; loading := false; error := None; storage := ∅ |}.

Definition msg (id : string) (body : string) (at_ : string) : Message :=
  {| uuid := Some id; text := body; createdAt := at_; outgoing := true |}.

Definition m42 : Message := msg "m-42" "hi" "2024-05-01T10:00:00.000Z".
Definition m7 : Message := msg "m-7" "hello" "2024-05-01T09:00:00.000Z".
Definition m7' : Message := msg "m-7" "hello again" "2024-05-01T09:30:00.000Z".

(** A network that answers every call with the same parsed body. *)
Definition answers (r : ApiClient.ApiResponse) : ApiClient.fetch :=
  λ _, ApiClient.ResponseOk (Resolved r).

(** A network that reports the URL it was asked for. *)
Definition echo : ApiClient.fetch :=
  λ call, ApiClient.FetchRejected (ApiClient.url call).

(** A network that is down. *)
Definition offline : ApiClient.fetch :=
  λ _, ApiClient.FetchRejected "Network request failed".

Definition env_of (n : ApiClient.fetch) : Env :=
  {| client := gateway; net := n;
     Date_now := 1714557600000;
     Date_toISOString := "2024-05-01T10:00:00.000Z";
     getItem_rejects := None; setItem_rejects := None |}.

Definition history (l : list Message) : ApiClient.ApiResponse :=
  {| ApiClient.messages := Some l; ApiClient.message := None;
     ApiClient.response_uuid := None |}.

Definition confirmation (m : Message) : ApiClient.ApiResponse :=
  {| ApiClient.messages := None; ApiClient.message := Some m;
     ApiClient.response_uuid := None |}.

Definition bare (id : option string) : ApiClient.ApiResponse :=
  {| ApiClient.messages := None; ApiClient.message := None;
     ApiClient.response_uuid := id |}.

Definition stored (c : string) (l : list Message) : World :=
  {| messages := []; loading := false; error := None;
     storage := {[ storage_key c := l ]} |}.

Definition cached (l : list Message) : World :=
  {| messages := l; loading := false; error := None; storage := ∅ |}.

(** Another moment, another screen state, the same stored list. *)
Definition env_later (n : ApiClient.fetch) : Env :=
  {| client := gateway; net := n;
     Date_now := 1714561200000;
     Date_toISOString := "2024-05-01T11:00:00.000Z";
     getItem_rejects := None; setItem_rejects := None |}.

Definition stale (c : string) (l : list Message) : World :=
  {| messages := [m7']; loading := true; error := Some "Failed to load messages";
     storage := {[ storage_key c := l ]} |}.

(** The state a confirmed send of ["hi"] leaves behind. *)
Definition after_send : World :=
  final (sendMessage (env_of (answers (confirmation m42))) "C1" "hi" w0).

End Sample.

(** Environments in which the store fails. *)
Module Faults.
Import AppProvider Sample.

Definition unreadable (n : ApiClient.fetch) : Env :=
  {| client := gateway; net := n;
     Date_now := 1714557600000;
     Date_toISOString := "2024-05-01T10:00:00.000Z";
     getItem_rejects := Some "Failed to read from storage";
     setItem_rejects := None |}.

Definition unwritable (n : ApiClient.fetch) : Env :=
  {| client := gateway; net := n;
     Date_now := 1714557600000;
     Date_toISOString := "2024-05-01T10:00:00.000Z";
     getItem_rejects := None;
     setItem_rejects := Some "Failed to write to storage" |}.

End Faults.

(** ** The rest of [ApiClient] *)
Module ApiClientRest.
Import ApiClient.

#[global] Instance RequestInit_eq_dec : EqDecision RequestInit.
Proof. solve_decision. Defined.

#[global] Instance FetchCall_eq_dec : EqDecision FetchCall.
Proof. solve_decision. Defined.

(** [static instance = null] and [getInstance()]: the instance is built on
    the first call from the two environment variables, as they print in the
    template literals, and handed out unchanged afterwards.  The result is
    the instance and the new value of the static field. *)
Definition getInstance (CALLBELL_API_URL CALLBELL_API_KEY : string)
    (instance : option t) : t * option t :=
  match instance with
  | Some client => (client, Some client)
  | None =>
      let client :=
        {| baseUrl := CALLBELL_API_URL; apiKey := CALLBELL_API_KEY |} in
      (client, Some client)
  end.

(** [__request]: as [request], without the inner [try] around the error
    body. *)
Definition __request (client : t) (net : fetch) (endpoint : string)
    (options : RequestInit) : outcome ApiResponse :=
  match net (fetch_call client endpoint options) with
  | FetchRejected reason => Rejected reason
  | ResponseNotOk status (Rejected e) => Rejected e
  | ResponseNotOk status (Resolved None) => Rejected null_body_error
  | ResponseNotOk status (Resolved (Some errorData)) =>
      Rejected (or_else (error_message errorData) (status_error status))
  | ResponseOk json => json
  end.

Definition put (client : t) (net : fetch) (endpoint : string)
    (data : option Json) : outcome ApiResponse :=
  request client net endpoint
    {| method := Some "PUT"; body := data; headers := json_headers |}.

Definition patch (client : t) (net : fetch) (endpoint : string)
    (data : option Json) : outcome ApiResponse :=
  request client net endpoint
    {| method := Some "PATCH"; body := data; headers := json_headers |}.

(** A network that serves one call and refuses every other. *)
Definition serves_only (expected : FetchCall) (r : ApiResponse) : fetch :=
  λ call,
    if decide (call = expected) then ResponseOk (Resolved r)
    else FetchRejected "unexpected request".

(** The call a verb with a JSON body is expected to issue. *)
Definition json_call (client : t) (verb endpoint : string)
    (data : option Json) : FetchCall :=
  {| url := baseUrl client +:+ endpoint;
     init := {| method := Some verb; body := data;
                headers := {[ "Content-Type" := "application/json";
                              "Authorization" := "Bearer " +:+ apiKey client ]}
             |} |}.

End ApiClientRest.

(** ** Conversations and contacts *)

(** [Conversation] and [Contact] are declared alike: an object with a
    [uuid] and any other properties.  The provider never looks into the
    other properties; they are kept as a map from property name to the
    value's text. *)
Module Contact.

Record t := { uuid : string; props : gmap string string }.

(** [{ ...conv, ...contact }]: the properties of both, those of [contact]
    winning, [uuid] among them. *)
Definition spread (conv contact : t) : t :=
  {| uuid := uuid contact; props := props contact ∪ props conv |}.

End Contact.

(** The two services behind these flows are not among the sources at hand;
    what their calls settle with is taken as given.  [getConversations]
    settles with the [contacts] array of the response, the contact calls
    with its [contact] property, absent or not. *)
Module conversationsService.

Record t := {
  getConversations : outcome (list Contact.t);
  deleteConversation : string → outcome ()
}.

End conversationsService.

Module contactsService.

Record t := {
  getContact : string → outcome (option Contact.t);
  updateContact : string → gmap string string → outcome (option Contact.t)
}.

End contactsService.

(** The provider with all of its state: the part the message flows use and
    the two lists the other flows maintain. *)
Module Provider.

Record State := {
  world : AppProvider.World;
  conversations : list Contact.t;
  currentContact : option Contact.t
}.

Record Run (A : Type) := {
  settled : outcome A;
  final : State;
  suspended : list State
}.
Arguments settled {A} _.
Arguments final {A} _.
Arguments suspended {A} _.

Definition Flow (A : Type) : Type := State → Run A.

Definition flow_ret {A} (a : A) : Flow A :=
  λ s, {| settled := Resolved a; final := s; suspended := [] |}.

Definition flow_bind {A B} (f : A → Flow B) (m : Flow A) : Flow B :=
  λ s,
    match m s with
    | {| settled := Resolved a; final := s1; suspended := tr |} =>
        match f a s1 with
        | {| settled := r; final := s2; suspended := tr' |} =>
            {| settled := r; final := s2; suspended := tr ++ tr' |}
        end
    | {| settled := Rejected e; final := s1; suspended := tr |} =>
        {| settled := Rejected e; final := s1; suspended := tr |}
    end.

#[global] Instance Flow_ret : MRet Flow := @flow_ret.
#[global] Instance Flow_bind : MBind Flow := @flow_bind.

Definition await {A} (p : outcome A) : Flow A :=
  λ s, {| settled := p; final := s; suspended := [s] |}.

Definition try_catch_finally {A} (body : Flow A) (handler : string → Flow A)
    (fin : Flow ()) : Flow A :=
  λ s,
    let after_catch :=
      match body s with
      | {| settled := Resolved a; final := s1; suspended := tr |} =>
          {| settled := Resolved a; final := s1; suspended := tr |}
      | {| settled := Rejected e; final := s1; suspended := tr |} =>
          match handler e s1 with
          | {| settled := r; final := s2; suspended := tr' |} =>
              {| settled := r; final := s2; suspended := tr ++ tr' |}
          end
      end in
    match after_catch with
    | {| settled := r; final := s2; suspended := tr |} =>
        match fin s2 with
        | {| settled := Resolved _; final := s3; suspended := tr' |} =>
            {| settled := r; final := s3; suspended := tr ++ tr' |}
        | {| settled := Rejected e; final := s3; suspended := tr' |} =>
            {| settled := Rejected e; final := s3; suspended := tr ++ tr' |}
        end
    end.

(** A message-side operation run inside the whole state. *)
Definition with_world (s : State) (w : AppProvider.World) : State :=
  {| world := w; conversations := conversations s;
     currentContact := currentContact s |}.

Definition lift {A} (m : AppProvider.Async A) : Flow A :=
  λ s,
    match m (world s) with
    | {| AppProvider.settled := r; AppProvider.final := w;
         AppProvider.suspended := tr |} =>
        {| settled := r; final := with_world s w;
           suspended := with_world s <$> tr |}
    end.

Definition setLoading (b : bool) : Flow () := lift (AppProvider.setLoading b).
Definition setError (e : option string) : Flow () :=
  lift (AppProvider.setError e).

Definition setConversations (updater : list Contact.t → list Contact.t)
    : Flow () :=
  λ s, {| settled := Resolved ();
          final := {| world := world s;
                      conversations := updater (conversations s);
                      currentContact := currentContact s |};
          suspended := [] |}.

Definition setCurrentContact (contact : option Contact.t) : Flow () :=
  λ s, {| settled := Resolved ();
          final := {| world := world s; conversations := conversations s;
                      currentContact := contact |};
          suspended := [] |}.

Definition loadConversations (svc : conversationsService.t) : Flow () :=
  setLoading true;;
  setError None;;
  try_catch_finally
    (contacts ← await (conversationsService.getConversations svc);
     setConversations (λ _, contacts))
    (λ err, setError (Some "Failed to load conversations"))
    (setLoading false).

Definition loadContactDetails (svc : contactsService.t) (contactUUID : string)
    : Flow (option Contact.t) :=
  setLoading true;;
  setError None;;
  try_catch_finally
    (contact ← await (contactsService.getContact svc contactUUID);
     setCurrentContact contact;;
     mret contact)
    (λ err, setError (Some "Failed to load contact details");; mret None)
    (setLoading false).

(** [prev.map((conv) => conv.uuid === contactUUID
                          ? { ...conv, ...response.contact } : conv)];
    spreading an absent contact adds nothing. *)
Definition updated_row (contactUUID : string) (contact : option Contact.t)
    (conv : Contact.t) : Contact.t :=
  if bool_decide (Contact.uuid conv = contactUUID)
  then match contact with
       | Some ct => Contact.spread conv ct
       | None => conv
       end
  else conv.

Definition updateContact (svc : contactsService.t) (contactUUID : string)
    (data : gmap string string) : Flow (option Contact.t) :=
  setLoading true;;
  setError None;;
  try_catch_finally
    (contact ← await (contactsService.updateContact svc contactUUID data);
     setCurrentContact contact;;
     setConversations (λ prev, updated_row contactUUID contact <$> prev);;
     mret contact)
    (λ err, setError (Some "Failed to update contact");; mret None)
    (setLoading false).

Definition deleteConversation (svc : conversationsService.t)
    (contactUUID : string) : Flow bool :=
  setLoading true;;
  setError None;;
  try_catch_finally
    (await (conversationsService.deleteConversation svc contactUUID);;
     setConversations (λ prev,
       filter (λ conv, negb (bool_decide (Contact.uuid conv = contactUUID)))
              prev);;
     mret true)
    (λ err, setError (Some "Failed to delete conversation");; mret false)
    (setLoading false).

Definition clearError : Flow () := setError None.

End Provider.

(** Sample rows for the flows above. *)
Module Rows.

Definition ada : Contact.t :=
  {| Contact.uuid := "c-1"; Contact.props := {[ "name" := "Ada" ]} |}.
Definition bob : Contact.t :=
  {| Contact.uuid := "c-2"; Contact.props := {[ "name" := "Bob" ]} |}.
Definition ada_renamed : Contact.t :=
  {| Contact.uuid := "c-1";
     Contact.props := {[ "name" := "Ada L."; "phone_number" := "4420" ]} |}.

Definition listing : Provider.State :=
  {| Provider.world := Sample.cached [Sample.m7];
     Provider.conversations := [ada; bob];
     Provider.currentContact := None |}.

Definition contacts_ok (ct : option Contact.t) : contactsService.t :=
  {| contactsService.getContact := λ _, Resolved ct;
     contactsService.updateContact := λ _ _, Resolved ct |}.

Definition conversations_ok (l : list Contact.t) : conversationsService.t :=
  {| conversationsService.getConversations := Resolved l;
     conversationsService.deleteConversation := λ _, Resolved () |}.

Definition conversations_down : conversationsService.t :=
  {| conversationsService.getConversations := Rejected "Network request failed";
     conversationsService.deleteConversation :=
       λ _, Rejected "Network request failed" |}.

End Rows.

(** ** The chat screen *)
Module ChatScreen.
Import AppProvider.

(** Truthiness of a string-valued property or state. *)
Definition truthy (s : option string) : bool :=
  match s with
  | Some s => negb (bool_decide (s = ""))
  | None => false
  end.

(** [keyExtractor={(item) => item.uuid || item.createdAt + item.text}] *)
Definition keyExtractor (item : Message) : string :=
  or_else (uuid item) (createdAt item +:+ text item).

(** [const isOutgoing = item.uuid], used as a condition. *)
Definition isOutgoing (item : Message) : bool := truthy (uuid item).

(** Which of the three [return]s of the component is taken, with what the
    provider's state contributes to it: the message of the error view, and
    for the thread the [data] of the list and the [enabled] flag of the
    swipe-to-delete rows. *)
Inductive Screen :=
  | LoadingSpinner
  | ErrorMessage (message : string)
  | Thread (data : list Message) (swipeEnabled : bool).

Definition render (w : World) : Screen :=
  if loading w && bool_decide (length (messages w) = 0%nat)
  then LoadingSpinner
  else match error w with
       | Some e =>
           if truthy (Some e) then ErrorMessage e
           else Thread (messages w) (negb (loading w))
       | None => Thread (messages w) (negb (loading w))
       end.

(** The [onPress] of the alert's Delete button; it resolves with the text
    of the alert it raises, if any. *)
Definition onPressDelete (env : Env) (messageUUID : string)
    : Async (option string) :=
  try_catch_finally
    (success ← deleteMessage env messageUUID;
     mret (if success : bool then None
           else Some "Failed to delete the message."))
    (λ error, mret (Some "Something went wrong while deleting the message."))
    (mret ()).

(** [handleSendMessage], over the input's state [messageText]; it resolves
    with the value [messageText] has afterwards.  [trim] is
    [String.prototype.trim]. *)
Definition handleSendMessage (trim : string → string) (env : Env)
    (contactUUID messageText : string) : Async string :=
  if bool_decide (trim messageText = "") then mret messageText
  else (sendMessage env contactUUID (trim messageText);; mret "").

End ChatScreen.

(** ** Properties of the merge *)
Section merge_facts.
Implicit Types remote local : list Message.

Lemma some_false_iff {A} (f : A → bool) (l : list A) :
  some f l = false ↔ ∀ x, x ∈ l → f x = false.
Proof.
  unfold some. induction l as [|a l IH]; simpl.
  - split; [intros _ x Hx; inversion Hx | done].
  - rewrite orb_false_iff, IH. split.
    + intros [Ha Hl] x Hx. apply elem_of_cons in Hx as [->|Hx]; auto.
    + intros H. split; [apply H; left | intros x Hx; apply H; by right].
Qed.

(** The filter predicate of the merge, read as a proposition. *)
Lemma kept_iff remote (localMsg : Message) :
  negb (some (λ msg, bool_decide (uuid msg = uuid localMsg)) remote)
  ↔ ∀ r, r ∈ remote → uuid r ≠ uuid localMsg.
Proof.
  rewrite negb_True, Is_true_false, some_false_iff.
  split; intros H r Hr; specialize (H r Hr).
  - by apply bool_decide_eq_false in H.
  - by apply bool_decide_eq_false.
Qed.

Lemma elem_of_merge remote local m :
  m ∈ merge remote local ↔
  m ∈ remote ∨ (m ∈ local ∧ ∀ r, r ∈ remote → uuid r ≠ uuid m).
Proof.
  unfold merge. rewrite elem_of_app, list_elem_of_filter, kept_iff. tauto.
Qed.

Lemma merge_nil_r remote : merge remote [] = remote.
Proof. unfold merge. simpl. apply app_nil_r. Qed.

Lemma merge_NoDup remote local :
  NoDup (uuid <$> remote) → NoDup (uuid <$> local) →
  NoDup (uuid <$> merge remote local).
Proof.
  intros Hr Hl. unfold merge. rewrite fmap_app. apply NoDup_app.
  split; [done|]. split.
  - intros u Hu Hu'.
    apply list_elem_of_fmap in Hu as (r & -> & Hr').
    apply list_elem_of_fmap in Hu' as (l & Hul & Hl').
    apply list_elem_of_filter in Hl' as [Hk _].
    pose proof (proj1 (kept_iff _ _) Hk) as Hk'. by apply (Hk' r).
  - eapply sublist_NoDup; [exact Hl|].
    apply fmap_sublist, sublist_filter.
Qed.

(** Merging the outcome with the same local list again changes nothing. *)
Lemma merge_absorbs_local remote local :
  merge (merge remote local) local = merge remote local.
Proof.
  unfold merge at 1.
  match goal with |- _ ++ ?k = _ => assert (k = []) as -> end;
    [|apply app_nil_r].
  apply elem_of_nil_inv. intros m [Hk Hm]%list_elem_of_filter.
  pose proof (proj1 (kept_iff _ _) Hk) as Hk'. clear Hk. rename Hk' into Hk.
  destruct (decide (Exists (λ r, uuid r = uuid m) remote))
    as [(r & Hr & E)%Exists_exists|Hn].
  - apply (Hk r); [|done]. apply elem_of_merge. by left.
  - apply (Hk m); [|done]. apply elem_of_merge. right. split; [done|].
    intros r Hr E. apply Hn, Exists_exists. eauto.
Qed.

End merge_facts.

(** ** Order of [createdAt] *)
Section order_facts.

Lemma leb_cases (a b : string) :
  String.leb a b = true ↔ OrderedTypeEx.String_as_OT.lt a b ∨ a = b.
Proof.
  unfold String.leb.
  pose proof (OrderedTypeEx.String_as_OT.cmp_lt a b) as Hlt.
  pose proof (OrderedTypeEx.String_as_OT.cmp_eq a b) as Heq.
  unfold OrderedTypeEx.String_as_OT.cmp in *.
  destruct (String.compare a b); split; intros H; try done.
  - right. by apply Heq.
  - left. by apply Hlt.
  - destruct H as [H|H]; [by apply Hlt in H | by apply Heq in H].
Qed.

#[global] Instance createdAt_le_trans : Transitive createdAt_le.
Proof.
  intros a b c. unfold createdAt_le. rewrite !leb_cases.
  intros [H1|H1] [H2|H2].
  - left. eapply OrderedTypeEx.String_as_OT.lt_trans; eauto.
  - left. by rewrite <- H2.
  - left. by rewrite H1.
  - right. congruence.
Qed.

Lemma StronglySorted_sublist {A} (R : relation A) (k l : list A) :
  k `sublist_of` l → StronglySorted R l → StronglySorted R k.
Proof.
  induction 1 as [|x k l Hs IH|x k l Hs IH]; intros Hl.
  - constructor.
  - apply StronglySorted_cons in Hl as [Hx Hl].
    apply StronglySorted_cons. split; [|by apply IH].
    apply Forall_forall. intros y Hy.
    rewrite Forall_forall in Hx. apply Hx. by eapply elem_of_sublist.
  - apply StronglySorted_cons in Hl as [_ Hl]. by apply IH.
Qed.

(** The merge never reorders: it keeps the gateway's sequence and then a
    subsequence of the stored one. *)
Lemma merge_sublist remote local :
  merge remote local `sublist_of` remote ++ local.
Proof. unfold merge. apply sublist_app; [done | apply sublist_filter]. Qed.

Lemma merge_Sorted remote local :
  Sorted createdAt_le (remote ++ local) →
  Sorted createdAt_le (merge remote local).
Proof.
  intros Hs. apply StronglySorted_Sorted.
  eapply StronglySorted_sublist; [apply merge_sublist|].
  apply Sorted_StronglySorted; [apply createdAt_le_trans | done].
Qed.

End order_facts.

(** ** Runs of the provider's operations *)
Section runs.
Import AppProvider.

(** Unfold one run down to the state updates. *)
Ltac run :=
  cbv [sendMessage loadMessages deleteMessage try_catch_finally
       mbind mret Async_bind Async_ret async_bind async_ret
       getItem setItem await setLoading setError setMessages];
  cbn [settled final suspended messages loading error storage app].

Ltac settle :=
  cbn [settled final suspended messages loading error storage app default].

(** While the gateway call is pending, only the flags have changed. *)
Lemma sendMessage_pending env c t w :
  ∃ w1 rest,
    suspended (sendMessage env c t w) = w1 :: rest
    ∧ messages w1 = messages w ∧ storage w1 = storage w
    ∧ loading w1 = true ∧ error w1 = None.
Proof.
  run.
  destruct (messagesService.sendMessage _ _ _ _);
    [destruct (getItem_rejects env), (setItem_rejects env)|]; settle;
    eexists _, _; (split; [reflexivity|]); done.
Qed.

Lemma sendMessage_resolved env c t w response :
  messagesService.sendMessage (client env) (net env) c t = Resolved response →
  let newMessage :=
    default (fallbackMessage env response t) (ApiClient.message response) in
  messages (final (sendMessage env c t w)) = messages w ++ [newMessage]
  ∧ (getItem_rejects env = None → setItem_rejects env = None →
     settled (sendMessage env c t w) = Resolved (Some newMessage)
     ∧ storage (final (sendMessage env c t w))
       = <[storage_key c :=
             default [] (storage w !! storage_key c) ++ [newMessage]]>
         (storage w)
     ∧ error (final (sendMessage env c t w)) = None)
  ∧ loading (final (sendMessage env c t w)) = false.
Proof.
  intros Hgw. run. rewrite Hgw.
  destruct (getItem_rejects env), (setItem_rejects env); settle;
    (split; [done|]); (split; [|done]); intros; simplify_eq; done.
Qed.

Lemma sendMessage_store_rejects env c t w response :
  messagesService.sendMessage (client env) (net env) c t = Resolved response →
  is_Some (getItem_rejects env) ∨ is_Some (setItem_rejects env) →
  settled (sendMessage env c t w) = Resolved None
  ∧ storage (final (sendMessage env c t w)) = storage w.
Proof.
  intros Hgw Hfail. run. rewrite Hgw.
  destruct (getItem_rejects env), (setItem_rejects env); settle; try done.
  destruct Hfail as [[? [=]]|[? [=]]].
Qed.

Lemma sendMessage_rejected env c t w e :
  messagesService.sendMessage (client env) (net env) c t = Rejected e →
  settled (sendMessage env c t w) = Resolved None
  ∧ messages (final (sendMessage env c t w)) = messages w
  ∧ storage (final (sendMessage env c t w)) = storage w
  ∧ error (final (sendMessage env c t w)) = Some "Failed to send message"
  ∧ loading (final (sendMessage env c t w)) = false.
Proof. intros Hgw. run. rewrite Hgw. done. Qed.

Lemma loadMessages_resolved env c w response :
  messagesService.getMessages (client env) (net env) c = Resolved response →
  getItem_rejects env = None →
  let merged :=
    merge (default [] (ApiClient.messages response))
          (default [] (storage w !! storage_key c)) in
  settled (loadMessages env c w) = Resolved merged
  ∧ messages (final (loadMessages env c w)) = merged
  ∧ storage (final (loadMessages env c w)) = storage w.
Proof.
  intros Hgw Hget. run. rewrite Hgw, Hget.
  destruct (storage w !! storage_key c); settle; rewrite ?merge_nil_r; done.
Qed.

Lemma loadMessages_rejected env c w e :
  messagesService.getMessages (client env) (net env) c = Rejected e →
  settled (loadMessages env c w) = Resolved []
  ∧ messages (final (loadMessages env c w)) = messages w
  ∧ storage (final (loadMessages env c w)) = storage w
  ∧ error (final (loadMessages env c w)) = Some "Failed to load messages"
  ∧ loading (final (loadMessages env c w)) = false.
Proof. intros Hgw. run. rewrite Hgw. done. Qed.

Lemma deleteMessage_resolved env id w response :
  messagesService.deleteMessage (client env) (net env) id = Resolved response →
  settled (deleteMessage env id w) = Resolved true
  ∧ messages (final (deleteMessage env id w))
    = filter (λ msg, negb (bool_decide (uuid msg = Some id))) (messages w)
  ∧ storage (final (deleteMessage env id w)) = storage w.
Proof. intros Hgw. run. rewrite Hgw. done. Qed.

End runs.

(** ** The specification's claims *)
Section claims.
Import AppProvider Sample.

(** C1, as amended.  When the gateway's list and the stored list are each
    free of repeated [uuid]s, a successful [loadMessages] returns and
    publishes [remote ++ kept], where a stored entry is kept exactly when no
    remote entry has its [uuid]; that list has no repeated [uuid]. *)
Theorem load_merge_unique env c w response :
  messagesService.getMessages (client env) (net env) c = Resolved response →
  getItem_rejects env = None →
  let remote := default [] (ApiClient.messages response) in
  let local := default [] (storage w !! storage_key c) in
  NoDup (uuid <$> remote) → NoDup (uuid <$> local) →
  settled (loadMessages env c w) = Resolved (merge remote local)
  ∧ messages (final (loadMessages env c w)) = merge remote local
  ∧ NoDup (uuid <$> merge remote local)
  ∧ ∃ kept, merge remote local = remote ++ kept
      ∧ ∀ m, m ∈ kept ↔ m ∈ local ∧ ∀ r, r ∈ remote → uuid r ≠ uuid m.
Proof.
  intros Hgw Hget remote local Hr Hl.
  destruct (loadMessages_resolved env c w response Hgw Hget) as (Hs & Hm & _).
  split; [exact Hs|]. split; [exact Hm|].
  split; [by apply merge_NoDup|].
  eexists. split; [reflexivity|].
  intros m. rewrite list_elem_of_filter, kept_iff. tauto.
Qed.

Lemma load_merge_unique_witness :
  let env := env_of (answers (history [m42])) in
  let w := stored "C1" [m42; m7] in
  settled (loadMessages env "C1" w) = Resolved (merge [m42] [m42; m7])
  ∧ NoDup (uuid <$> merge [m42] [m42; m7]).
Proof.
  intros env w.
  destruct (load_merge_unique env "C1" w (history [m42]))
    as (Hs & _ & Hn & _).
  - reflexivity.
  - reflexivity.
  - vm_compute. apply NoDup_singleton.
  - vm_compute. apply NoDup_cons. split; [|apply NoDup_singleton].
    intros H. apply list_elem_of_singleton in H. discriminate H.
  - split; [exact Hs | exact Hn].
Defined.

(** C1 fails as stated: two stored entries with the same [uuid] and no
    remote entry with it are both published. *)
Lemma load_merge_repeats_uuid :
  ¬ (∀ out,
       settled (loadMessages (env_of (answers (history []))) "C1"
                             (stored "C1" [m7; m7'])) = Resolved out →
       NoDup (uuid <$> out)).
Proof.
  intros H. specialize (H [m7; m7'] ltac:(vm_compute; reflexivity)).
  apply NoDup_cons in H as [Hn _]. apply Hn. vm_compute. left.
Qed.

(** Such a stored list arises from the provider itself: two sends whose
    responses carry no [message] and the same [uuid] persist two entries
    with that [uuid]. *)
Example stored_repeats_reachable :
  let env := env_of (answers (bare (Some "m-7"))) in
  storage (final (sendMessage env "C1" "hello again"
                    (final (sendMessage env "C1" "hello" w0))))
    !! storage_key "C1"
  = Some [msg "m-7" "hello" "2024-05-01T10:00:00.000Z";
          msg "m-7" "hello again" "2024-05-01T10:00:00.000Z"].
Proof. vm_compute. reflexivity. Qed.

(** C2, as amended.  A successful [loadMessages] returns the gateway's
    sequence in the gateway's order followed by the kept stored entries in
    their stored order; nothing is sorted.  The output is non-decreasing in
    [createdAt] whenever the gateway's sequence followed by the stored one
    already is. *)
Theorem load_merge_keeps_order env c w response :
  messagesService.getMessages (client env) (net env) c = Resolved response →
  getItem_rejects env = None →
  let remote := default [] (ApiClient.messages response) in
  let local := default [] (storage w !! storage_key c) in
  settled (loadMessages env c w) = Resolved (merge remote local)
  ∧ (∃ kept, merge remote local = remote ++ kept ∧ kept `sublist_of` local)
  ∧ (Sorted createdAt_le (remote ++ local) →
     Sorted createdAt_le (merge remote local)).
Proof.
  intros Hgw Hget remote local.
  destruct (loadMessages_resolved env c w response Hgw Hget) as (Hs & _ & _).
  split; [exact Hs|]. split.
  - eexists. split; [reflexivity | apply sublist_filter].
  - apply merge_Sorted.
Qed.

Lemma load_merge_keeps_order_witness :
  let env := env_of (answers (history [m7])) in
  let w := stored "C1" [m7'; m42] in
  settled (loadMessages env "C1" w) = Resolved (merge [m7] [m7'; m42])
  ∧ Sorted createdAt_le (merge [m7] [m7'; m42]).
Proof.
  intros env w.
  destruct (load_merge_keeps_order env "C1" w (history [m7]))
    as (Hs & _ & Ho).
  - reflexivity.
  - reflexivity.
  - split; [exact Hs|]. apply Ho.
    repeat constructor; vm_compute; reflexivity.
Defined.

(** C2 fails as stated: a stored message older than the remote one is
    published after it. *)
Lemma load_merge_out_of_order :
  ¬ (∀ out,
       settled (loadMessages (env_of (answers (history [m42]))) "C1"
                             (stored "C1" [m7])) = Resolved out →
       Sorted createdAt_le out).
Proof.
  intros H. specialize (H [m42; m7] ltac:(vm_compute; reflexivity)).
  apply Sorted_inv in H as [_ Hd]. apply HdRel_inv in Hd.
  vm_compute in Hd. discriminate Hd.
Qed.

(** C7.  What [loadMessages] returns and publishes is a function of the
    remote sequence and the stored sequence alone: two runs that receive
    the same two sequences agree, whatever the clock, the flags and the
    cache were, and loading again right away changes nothing. *)
Theorem load_merge_deterministic env1 env2 c w1 w2 response1 response2 :
  messagesService.getMessages (client env1) (net env1) c = Resolved response1 →
  messagesService.getMessages (client env2) (net env2) c = Resolved response2 →
  default [] (ApiClient.messages response1)
    = default [] (ApiClient.messages response2) →
  getItem_rejects env1 = None → getItem_rejects env2 = None →
  default [] (storage w1 !! storage_key c)
    = default [] (storage w2 !! storage_key c) →
  settled (loadMessages env1 c w1) = settled (loadMessages env2 c w2)
  ∧ messages (final (loadMessages env1 c w1))
    = messages (final (loadMessages env2 c w2))
  ∧ settled (loadMessages env1 c (final (loadMessages env1 c w1)))
    = settled (loadMessages env1 c w1)
  ∧ messages (final (loadMessages env1 c (final (loadMessages env1 c w1))))
    = messages (final (loadMessages env1 c w1)).
Proof.
  intros Hgw1 Hgw2 Hremote Hget1 Hget2 Hlocal.
  destruct (loadMessages_resolved env1 c w1 response1 Hgw1 Hget1)
    as (Hs1 & Hm1 & Hst1).
  destruct (loadMessages_resolved env2 c w2 response2 Hgw2 Hget2)
    as (Hs2 & Hm2 & _).
  destruct (loadMessages_resolved env1 c (final (loadMessages env1 c w1))
              response1 Hgw1 Hget1) as (Hs3 & Hm3 & _).
  rewrite Hs1, Hs2, Hs3, Hm1, Hm2, Hm3, Hst1, Hremote, Hlocal. done.
Qed.

Lemma load_merge_deterministic_witness :
  let env1 := env_of (answers (history [m42])) in
  let env2 := env_later (answers (history [m42])) in
  settled (loadMessages env1 "C1" (stored "C1" [m7]))
    = settled (loadMessages env2 "C1" (stale "C1" [m7]))
  ∧ messages (final (loadMessages env1 "C1" (stored "C1" [m7])))
    = messages (final (loadMessages env2 "C1" (stale "C1" [m7]))).
Proof.
  intros env1 env2.
  destruct (load_merge_deterministic env1 env2 "C1"
              (stored "C1" [m7]) (stale "C1" [m7])
              (history [m42]) (history [m42]))
    as (Hs & Hm & _); try reflexivity.
  split; [exact Hs | exact Hm].
Defined.

(** C3, as amended.  [sendMessage] puts nothing in the cache while the
    gateway call is pending: the flow waits with the cache as it found it.
    When the gateway answers it appends one entry, the response's message
    or the fallback object, at the end of the cache, so the number of
    entries with that [uuid] grows by one; with a working store that entry
    is what the call returns.  No placeholder is ever inserted. *)
Theorem send_appends_after_confirmation env c t w :
  (∃ w1 rest, suspended (sendMessage env c t w) = w1 :: rest
              ∧ messages w1 = messages w)
  ∧ ∀ response,
      messagesService.sendMessage (client env) (net env) c t
        = Resolved response →
      let newMessage :=
        default (fallbackMessage env response t) (ApiClient.message response) in
      messages (final (sendMessage env c t w)) = messages w ++ [newMessage]
      ∧ length (filter (λ m, uuid m = uuid newMessage)
                       (messages (final (sendMessage env c t w))))
        = S (length (filter (λ m, uuid m = uuid newMessage) (messages w)))
      ∧ (getItem_rejects env = None → setItem_rejects env = None →
         settled (sendMessage env c t w) = Resolved (Some newMessage)).
Proof.
  split.
  - destruct (sendMessage_pending env c t w) as (w1 & rest & Hs & Hm & _).
    eauto.
  - intros response Hgw newMessage.
    destruct (sendMessage_resolved env c t w response Hgw) as (Hm & Hst & _).
    fold newMessage in Hm, Hst. split; [exact Hm|]. split.
    + rewrite Hm, filter_app, length_app, filter_cons_True by done.
      simpl. lia.
    + intros Hget Hset. by destruct (Hst Hget Hset).
Qed.

Lemma send_appends_after_confirmation_witness :
  let env := env_of (answers (confirmation m42)) in
  messages (final (sendMessage env "C1" "hi" (cached [m7]))) = [m7; m42]
  ∧ settled (sendMessage env "C1" "hi" (cached [m7])) = Resolved (Some m42).
Proof.
  intros env.
  destruct (send_appends_after_confirmation env "C1" "hi" (cached [m7]))
    as (_ & Hconfirmed).
  destruct (Hconfirmed (confirmation m42) eq_refl) as (Hm & _ & Hs).
  split; [exact Hm | exact (Hs eq_refl eq_refl)].
Defined.

(** C3 fails as stated: while the gateway call for ["hi"] is pending the
    cache holds no entry at all. *)
Lemma send_pending_cache_empty :
  ¬ (∃ w1 rest m,
       suspended (sendMessage (env_of (answers (confirmation m42)))
                              "C1" "hi" w0) = w1 :: rest
       ∧ m ∈ messages w1).
Proof.
  intros (w1 & rest & m & Hs & Hm). vm_compute in Hs.
  injection Hs as <- _. simpl in Hm. by apply elem_of_nil in Hm.
Qed.

(** C4, as amended.  When the gateway send fails, [sendMessage] resolves
    with [null], sets the error slot to ['Failed to send message'], and
    leaves both the cache and the store exactly as they were: no entry is
    added to the cache and none is marked failed. *)
Theorem send_failure_leaves_cache env c t w e :
  messagesService.sendMessage (client env) (net env) c t = Rejected e →
  settled (sendMessage env c t w) = Resolved None
  ∧ messages (final (sendMessage env c t w)) = messages w
  ∧ storage (final (sendMessage env c t w)) = storage w
  ∧ error (final (sendMessage env c t w)) = Some "Failed to send message".
Proof.
  intros Hgw.
  destruct (sendMessage_rejected env c t w e Hgw) as (? & ? & ? & ? & _).
  done.
Qed.

Lemma send_failure_leaves_cache_witness :
  let run := sendMessage (env_of offline) "C1" "hi" (cached [m7]) in
  settled run = Resolved None
  ∧ messages (final run) = [m7]
  ∧ storage (final run) = ∅
  ∧ error (final run) = Some "Failed to send message".
Proof.
  exact (send_failure_leaves_cache (env_of offline) "C1" "hi" (cached [m7])
           "Network request failed" eq_refl).
Defined.

(** C4 fails as stated: after a failed send of ["hi"] from an empty cache
    the cache holds no entry, so none for that send. *)
Lemma send_failure_no_entry :
  ¬ (∃ m, m ∈ messages (final (sendMessage (env_of offline) "C1" "hi" w0))).
Proof. intros (m & Hm). vm_compute in Hm. by apply elem_of_nil in Hm. Qed.

(** C5, as amended.  When the gateway fetch fails, [loadMessages] resolves
    with the empty sequence, sets the error slot to
    ['Failed to load messages'], and leaves the cached list (and the store)
    exactly as it was. *)
Theorem load_failure_keeps_cache env c w e :
  messagesService.getMessages (client env) (net env) c = Rejected e →
  settled (loadMessages env c w) = Resolved []
  ∧ messages (final (loadMessages env c w)) = messages w
  ∧ storage (final (loadMessages env c w)) = storage w
  ∧ error (final (loadMessages env c w)) = Some "Failed to load messages".
Proof.
  intros Hgw.
  destruct (loadMessages_rejected env c w e Hgw) as (? & ? & ? & ? & _).
  done.
Qed.

Lemma load_failure_keeps_cache_witness :
  let run := loadMessages (env_of offline) "C1" (cached [m7; m42]) in
  settled run = Resolved []
  ∧ messages (final run) = [m7; m42]
  ∧ storage (final run) = ∅
  ∧ error (final run) = Some "Failed to load messages".
Proof.
  exact (load_failure_keeps_cache (env_of offline) "C1" (cached [m7; m42])
           "Network request failed" eq_refl).
Defined.

(** C5 fails as stated: with the gateway down the call does not reject, it
    resolves with a message sequence. *)
Lemma load_failure_resolves :
  ¬ (∃ e, settled (loadMessages (env_of offline) "C1" (cached [m7; m42]))
          = Rejected e).
Proof. intros (e & He). vm_compute in He. discriminate He. Qed.

(** C6, as amended.  When the gateway delete succeeds, [deleteMessage]
    removes from the cache the entries whose [uuid] is the given id and
    never touches the store, whether or not the message had been persisted
    there by an earlier send. *)
Theorem delete_leaves_store env id w response :
  messagesService.deleteMessage (client env) (net env) id = Resolved response →
  (∀ m, m ∈ messages (final (deleteMessage env id w)) → uuid m ≠ Some id)
  ∧ storage (final (deleteMessage env id w)) = storage w.
Proof.
  intros Hgw.
  destruct (deleteMessage_resolved env id w response Hgw) as (_ & Hm & Hst).
  split; [|exact Hst].
  intros m. rewrite Hm, list_elem_of_filter, negb_True, bool_decide_spec.
  tauto.
Qed.

Lemma delete_leaves_store_witness :
  let run := deleteMessage (env_of (answers (bare None))) "m-42" after_send in
  (∀ m, m ∈ messages (final run) → uuid m ≠ Some "m-42")
  ∧ storage (final run) = storage after_send.
Proof.
  exact (delete_leaves_store (env_of (answers (bare None))) "m-42" after_send
           (bare None) eq_refl).
Defined.

(** C6 fails as stated: a message persisted by a confirmed send is still
    in the store's list for the conversation after it has been deleted. *)
Lemma delete_keeps_persisted_entry :
  ¬ (∀ l,
       storage (final (deleteMessage (env_of (answers (bare None)))
                                     "m-42" after_send))
         !! storage_key "C1" = Some l →
       ∀ m, m ∈ l → uuid m ≠ Some "m-42").
Proof.
  intros H.
  specialize (H [m42] ltac:(vm_compute; reflexivity) m42).
  apply H; [left | reflexivity].
Qed.

(** What the untouched store entails: the deleted message is published
    again by the next load, although the gateway no longer lists it. *)
Example deleted_entry_returns_on_load :
  messages (final (loadMessages (env_of (answers (history []))) "C1"
             (final (deleteMessage (env_of (answers (bare None)))
                                   "m-42" after_send))))
  = [m42].
Proof. vm_compute. reflexivity. Qed.

(** C8: the call [getMessages] issues.  [ApiClient.get] takes the endpoint
    only, so the [{ params: { limit: 100 } }] passed by [getMessages] never
    reaches [fetch]: the URL has no query and the options hold the method
    and the authorization header, nothing else. *)
Theorem getMessages_call_has_no_limit client net c :
  messagesService.getMessages client net c
  = ApiClient.request client net ("/contacts/" +:+ c +:+ "/messages")
      {| ApiClient.method := Some "GET"; ApiClient.body := None;
         ApiClient.headers := ∅ |}
  ∧ ApiClient.fetch_call client ("/contacts/" +:+ c +:+ "/messages")
      {| ApiClient.method := Some "GET"; ApiClient.body := None;
         ApiClient.headers := ∅ |}
    = {| ApiClient.url :=
           ApiClient.baseUrl client +:+ "/contacts/" +:+ c +:+ "/messages";
         ApiClient.init :=
           {| ApiClient.method := Some "GET"; ApiClient.body := None;
              ApiClient.headers :=
                {[ "Authorization" := "Bearer " +:+ ApiClient.apiKey client ]}
           |} |}
  ∧ ∀ endpoint config,
      ApiClient.get client net endpoint config
      = ApiClient.get client net endpoint None.
Proof.
  split; [reflexivity|]. split; [|reflexivity].
  unfold ApiClient.fetch_call. cbn [ApiClient.method ApiClient.body ApiClient.headers].
  by rewrite (left_id_L ∅ (∪)).
Qed.

Example getMessages_c1_url :
  messagesService.getMessages gateway echo "c1"
  = Rejected "https://api.example/contacts/c1/messages".
Proof. vm_compute. reflexivity. Qed.

(** C9.  When the gateway delete succeeds, [deleteMessage] resolves with
    [true] whatever the cache holds, and the cache becomes the old one
    without the entries whose [uuid] is the given id: every other entry
    stays, in place and unchanged; if no entry has that id the cache is
    the same list. *)
Theorem delete_removes_exactly env id w response :
  messagesService.deleteMessage (client env) (net env) id = Resolved response →
  settled (deleteMessage env id w) = Resolved true
  ∧ messages (final (deleteMessage env id w))
    = filter (λ m, uuid m ≠ Some id) (messages w)
  ∧ (∀ m, m ∈ messages (final (deleteMessage env id w))
          ↔ m ∈ messages w ∧ uuid m ≠ Some id)
  ∧ ((∀ m, m ∈ messages w → uuid m ≠ Some id) →
     messages (final (deleteMessage env id w)) = messages w).
Proof.
  intros Hgw.
  destruct (deleteMessage_resolved env id w response Hgw) as (Hs & Hm & _).
  assert (messages (final (deleteMessage env id w))
          = filter (λ m, uuid m ≠ Some id) (messages w)) as Hf.
  { rewrite Hm. apply list_filter_iff. intros m.
    by rewrite negb_True, bool_decide_spec. }
  split; [exact Hs|]. split; [exact Hf|]. split.
  - intros m. rewrite Hf, list_elem_of_filter. tauto.
  - intros Habsent. rewrite Hf. clear Hf Hm Hs.
    induction (messages w) as [|x l IH]; [done|].
    rewrite filter_cons_True by (apply Habsent; left).
    f_equal. apply IH. intros m Hm. apply Habsent. by right.
Qed.

Lemma delete_removes_exactly_witness :
  let env := env_of (answers (bare None)) in
  settled (deleteMessage env "m-42" (cached [m7; m42; m7'])) = Resolved true
  ∧ messages (final (deleteMessage env "m-42" (cached [m7; m42; m7'])))
    = [m7; m7']
  ∧ settled (deleteMessage env "m-42" w0) = Resolved true.
Proof.
  intros env.
  destruct (delete_removes_exactly env "m-42" (cached [m7; m42; m7'])
              (bare None) eq_refl) as (Hs & Hf & _).
  destruct (delete_removes_exactly env "m-42" w0 (bare None) eq_refl)
    as (Hs0 & _).
  split; [exact Hs|]. split; [|exact Hs0].
  rewrite Hf. vm_compute. reflexivity.
Defined.

(** C10, as amended.  When the gateway send succeeds and the response has
    no [message], the entry [sendMessage] appends to the cache is the
    fallback object: its [uuid] is the response's [uuid] when that is a
    non-empty string and the decimal [Date.now()] otherwise, its text is
    the text sent.  When the store's read and write both succeed the same
    entry is appended to the list persisted for the conversation and
    returned; when the store rejects either, nothing is persisted and the
    call resolves with [null]. *)
Theorem send_fallback_appended env c t w response :
  messagesService.sendMessage (client env) (net env) c t = Resolved response →
  ApiClient.message response = None →
  let fallback :=
    {| uuid := Some (or_else (ApiClient.response_uuid response)
                             (pretty (Date_now env)));
       text := t; createdAt := Date_toISOString env; outgoing := true |} in
  (∀ u, ApiClient.response_uuid response = Some u → u ≠ "" →
        uuid fallback = Some u)
  ∧ (ApiClient.response_uuid response = None →
     uuid fallback = Some (pretty (Date_now env)))
  ∧ messages (final (sendMessage env c t w)) = messages w ++ [fallback]
  ∧ (getItem_rejects env = None → setItem_rejects env = None →
     storage (final (sendMessage env c t w)) !! storage_key c
       = Some (default [] (storage w !! storage_key c) ++ [fallback])
     ∧ (∀ k, k ≠ storage_key c →
             storage (final (sendMessage env c t w)) !! k = storage w !! k)
     ∧ settled (sendMessage env c t w) = Resolved (Some fallback))
  ∧ (is_Some (getItem_rejects env) ∨ is_Some (setItem_rejects env) →
     storage (final (sendMessage env c t w)) = storage w
     ∧ settled (sendMessage env c t w) = Resolved None).
Proof.
  intros Hgw Hnone fallback.
  destruct (sendMessage_resolved env c t w response Hgw) as (Hm & Hst & _).
  rewrite Hnone in Hm, Hst. cbn [default] in Hm, Hst.
  change (fallbackMessage env response t) with fallback in Hm, Hst.
  split; [|split; [|split; [exact Hm|split]]].
  - intros u Hu Hne. unfold fallback. rewrite Hu. cbn [uuid or_else].
    by rewrite bool_decide_eq_false_2.
  - intros Hu. unfold fallback. by rewrite Hu.
  - intros Hget Hset. destruct (Hst Hget Hset) as (Hs & Hsto & _).
    rewrite Hsto. split; [apply lookup_insert_eq|]. split; [|exact Hs].
    intros k Hk. by apply lookup_insert_ne.
  - intros Hfail.
    by destruct (sendMessage_store_rejects env c t w response Hgw Hfail).
Qed.

Lemma send_fallback_appended_witness :
  let env := env_of (answers (bare None)) in
  let fallback := msg "1714557600000" "hi" "2024-05-01T10:00:00.000Z" in
  messages (final (sendMessage env "C1" "hi" (cached [m7]))) = [m7; fallback]
  ∧ storage (final (sendMessage env "C1" "hi" (cached [m7])))
      !! storage_key "C1" = Some [fallback]
  ∧ settled (sendMessage env "C1" "hi" (cached [m7])) = Resolved (Some fallback).
Proof.
  intros env fallback.
  destruct (send_fallback_appended env "C1" "hi" (cached [m7]) (bare None)
              eq_refl eq_refl) as (_ & _ & Hm & Hst & _).
  destruct (Hst eq_refl eq_refl) as (Hsto & _ & Hs).
  split; [exact Hm|]. split; [exact Hsto | exact Hs].
Defined.

(** C10 fails as stated: when the store rejects the write, the fallback
    entry is in the cache but the list persisted for the conversation does
    not hold it. *)
Lemma send_fallback_not_persisted :
  ¬ (∃ l,
       storage (final (sendMessage (Faults.unwritable (answers (bare None)))
                                   "C1" "hi" (cached [m7])))
         !! storage_key "C1" = Some l
       ∧ msg "1714557600000" "hi" "2024-05-01T10:00:00.000Z" ∈ l).
Proof. intros (l & Hl & _). vm_compute in Hl. discriminate Hl. Qed.

End claims.

(** ** Further properties of the merge *)
Section merge_more.
Implicit Types remote local : list Message.

Lemma filter_all {A} (P : A → Prop) `{∀ x, Decision (P x)} (l : list A) :
  (∀ x, x ∈ l → P x) → filter P l = l.
Proof.
  induction l as [|x l IH]; intros Hall; [done|].
  rewrite filter_cons_True by (apply Hall; left).
  f_equal. apply IH. intros y Hy. apply Hall. by right.
Qed.

Lemma filter_none {A} (P : A → Prop) `{∀ x, Decision (P x)} (l : list A) :
  (∀ x, x ∈ l → ¬ P x) → filter P l = [].
Proof.
  intros Hnone. apply elem_of_nil_inv.
  intros x [HP Hx]%list_elem_of_filter. by apply (Hnone x).
Qed.

Lemma merge_uuid_kept remote local m :
  m ∈ remote ∨ m ∈ local →
  ∃ m', m' ∈ merge remote local ∧ uuid m' = uuid m.
Proof.
  intros [Hm|Hm].
  - exists m. split; [|done]. apply elem_of_merge. by left.
  - destruct (decide (Exists (λ r, uuid r = uuid m) remote))
      as [(r & Hr & E)%Exists_exists|Hn].
    + exists r. split; [|done]. apply elem_of_merge. by left.
    + exists m. split; [|done]. apply elem_of_merge. right.
      split; [done|]. intros r Hr E. apply Hn, Exists_exists. eauto.
Qed.

(** X1.  The merge invents nothing and loses no [uuid]: every published
    entry comes from one of the two lists, and every [uuid] of either list
    is the [uuid] of a published entry. *)
Theorem merge_keeps_every_uuid remote local :
  (∀ m, m ∈ merge remote local → m ∈ remote ∨ m ∈ local)
  ∧ (∀ m, m ∈ remote ∨ m ∈ local →
          ∃ m', m' ∈ merge remote local ∧ uuid m' = uuid m).
Proof.
  split.
  - intros m Hm. apply elem_of_merge in Hm. tauto.
  - intros m Hm. by apply merge_uuid_kept.
Qed.

(** X2.  For a [uuid] the gateway lists, the gateway's version wins: every
    published entry with that [uuid] is one of the gateway's, and a stored
    entry with it that the gateway did not send is not published. *)
Theorem merge_remote_wins remote local r :
  r ∈ remote →
  (∀ m, m ∈ merge remote local → uuid m = uuid r → m ∈ remote)
  ∧ (∀ l, l ∈ local → uuid l = uuid r → l ∉ remote →
          l ∉ merge remote local).
Proof.
  intros Hr. split.
  - intros m Hm E. apply elem_of_merge in Hm as [Hm|[_ Hk]]; [done|].
    by destruct (Hk r Hr).
  - intros l _ E Hnot Hm. apply elem_of_merge in Hm as [Hm|[_ Hk]]; [done|].
    by destruct (Hk r Hr).
Qed.

Lemma merge_remote_wins_witness :
  Sample.m7 ∈ merge [Sample.m7] [Sample.m7'; Sample.m42]
  ∧ Sample.m7' ∉ merge [Sample.m7] [Sample.m7'; Sample.m42].
Proof.
  destruct (merge_remote_wins [Sample.m7] [Sample.m7'; Sample.m42] Sample.m7)
    as (_ & Hlocal); [left|].
  split; [left|].
  apply (Hlocal Sample.m7').
  - left.
  - reflexivity.
  - intros H. apply list_elem_of_singleton in H. discriminate H.
Defined.

(** X3.  Merging is idempotent on either side: merging the outcome with the
    same stored list again, or merging the gateway's list with the outcome,
    gives the outcome. *)
Theorem merge_idempotent remote local :
  merge (merge remote local) local = merge remote local
  ∧ merge remote (merge remote local) = merge remote local.
Proof.
  split; [apply merge_absorbs_local|].
  unfold merge at 1 3. f_equal. unfold merge. rewrite filter_app.
  rewrite (filter_none _ remote), app_nil_l.
  - apply filter_all. by intros m [Hk _]%list_elem_of_filter.
  - intros r Hr Hk. pose proof (proj1 (kept_iff _ _) Hk) as Hk'.
    by apply (Hk' r).
Qed.

(** X4.  The gateway's list is always a prefix of the outcome, which is
    never longer than the two lists together; with an empty gateway list
    the stored list is published as it is, repeats included, and with an
    empty stored list the gateway's. *)
Theorem merge_extends_remote remote local :
  take (length remote) (merge remote local) = remote
  ∧ (length remote ≤ length (merge remote local)
                   ≤ length remote + length local)%nat
  ∧ merge [] local = local
  ∧ merge remote [] = remote.
Proof.
  split; [|split; [|split]].
  - unfold merge. by rewrite take_app_length.
  - unfold merge. rewrite length_app.
    pose proof (length_filter
      (λ localMsg, negb (some (λ msg, bool_decide (uuid msg = uuid localMsg))
                              remote)) local).
    lia.
  - unfold merge. rewrite app_nil_l. apply filter_all.
    intros m _. apply kept_iff. intros r Hr. by apply elem_of_nil in Hr.
  - apply merge_nil_r.
Qed.

End merge_more.

(** ** Further properties of the message flows *)
Section flows_more.
Import AppProvider Sample.

Ltac unfold_flow :=
  cbv [sendMessage loadMessages deleteMessage try_catch_finally
       mbind mret Async_bind Async_ret async_bind async_ret
       getItem setItem await setLoading setError setMessages];
  cbn [settled final suspended messages loading error storage app].

Ltac reduce_flow :=
  cbn [settled final suspended messages loading error storage app default].

(** Case analysis on everything the outside can answer during a flow. *)
Ltac flow_cases env gw :=
  unfold_flow; destruct gw;
  destruct (getItem_rejects env), (setItem_rejects env); reduce_flow.

Lemma storage_key_inj c c' : storage_key c = storage_key c' → c = c'.
Proof. unfold storage_key. intros H. by simplify_eq/=. Qed.

Lemma sendMessage_store_frame env c t w c' :
  c' ≠ c →
  storage (final (sendMessage env c t w)) !! storage_key c'
  = storage w !! storage_key c'.
Proof.
  intros Hc'.
  flow_cases env (messagesService.sendMessage (client env) (net env) c t);
    try done.
  apply lookup_insert_ne. intros Hk. by apply storage_key_inj in Hk.
Qed.

Lemma sendMessage_resolves env c t w :
  ∃ sent, settled (sendMessage env c t w) = Resolved sent.
Proof.
  flow_cases env (messagesService.sendMessage (client env) (net env) c t);
    by eexists.
Qed.

(** X5.  A store that cannot be read fails the load even though the gateway
    answered: the call resolves with the empty sequence, the error slot is
    set, and the cache keeps what it had; the fetched messages are dropped. *)
Theorem load_store_read_failure env c w response e :
  messagesService.getMessages (client env) (net env) c = Resolved response →
  getItem_rejects env = Some e →
  settled (loadMessages env c w) = Resolved []
  ∧ messages (final (loadMessages env c w)) = messages w
  ∧ error (final (loadMessages env c w)) = Some "Failed to load messages"
  ∧ storage (final (loadMessages env c w)) = storage w.
Proof. intros Hgw Hget. unfold_flow. rewrite Hgw, Hget. done. Qed.

Lemma load_store_read_failure_witness :
  let env := Faults.unreadable (answers (history [m42])) in
  settled (loadMessages env "C1" (cached [m7])) = Resolved []
  ∧ messages (final (loadMessages env "C1" (cached [m7]))) = [m7].
Proof.
  intros env.
  destruct (load_store_read_failure env "C1" (cached [m7]) (history [m42])
              "Failed to read from storage" eq_refl eq_refl) as (Hs & Hm & _).
  split; [exact Hs | exact Hm].
Defined.

(** X6.  What each flow may write to the store: [loadMessages] and
    [deleteMessage] never write, whatever happens; [sendMessage] leaves the
    list of every other conversation as it was. *)
Theorem store_footprint env c t id w :
  storage (final (loadMessages env c w)) = storage w
  ∧ storage (final (deleteMessage env id w)) = storage w
  ∧ ∀ c', c' ≠ c →
      storage (final (sendMessage env c t w)) !! storage_key c'
      = storage w !! storage_key c'.
Proof.
  split; [|split].
  - flow_cases env (messagesService.getMessages (client env) (net env) c);
      try done; by destruct (storage w !! storage_key c).
  - unfold_flow.
    by destruct (messagesService.deleteMessage (client env) (net env) id).
  - intros c' Hc'. by apply sendMessage_store_frame.
Qed.

(** X7.  When the gateway confirmed the send but the store then rejects the
    read or the write, the message is already in the cache, yet the call
    resolves with [null] and sets the error slot; the store is unchanged. *)
Theorem send_store_failure env c t w response :
  messagesService.sendMessage (client env) (net env) c t = Resolved response →
  is_Some (getItem_rejects env) ∨ is_Some (setItem_rejects env) →
  let newMessage :=
    default (fallbackMessage env response t) (ApiClient.message response) in
  settled (sendMessage env c t w) = Resolved None
  ∧ messages (final (sendMessage env c t w)) = messages w ++ [newMessage]
  ∧ error (final (sendMessage env c t w)) = Some "Failed to send message"
  ∧ storage (final (sendMessage env c t w)) = storage w.
Proof.
  intros Hgw Hfail newMessage. unfold_flow. rewrite Hgw.
  destruct (getItem_rejects env), (setItem_rejects env); reduce_flow;
    try done.
  destruct Hfail as [[? [=]]|[? [=]]].
Qed.

Lemma send_store_failure_witness :
  let env := Faults.unwritable (answers (confirmation m42)) in
  settled (sendMessage env "C1" "hi" (cached [m7])) = Resolved None
  ∧ messages (final (sendMessage env "C1" "hi" (cached [m7]))) = [m7; m42]
  ∧ storage (final (sendMessage env "C1" "hi" (cached [m7]))) = ∅.
Proof.
  intros env.
  destruct (send_store_failure env "C1" "hi" (cached [m7]) (confirmation m42)
              eq_refl) as (Hs & Hm & _ & Hst).
  - right. by eexists.
  - split; [exact Hs|]. split; [exact Hm | exact Hst].
Defined.

(** X8.  When the gateway delete fails, [deleteMessage] resolves with
    [false], sets the error slot, and leaves the cache and the store as
    they were. *)
Theorem delete_failure_keeps_cache env id w e :
  messagesService.deleteMessage (client env) (net env) id = Rejected e →
  settled (deleteMessage env id w) = Resolved false
  ∧ messages (final (deleteMessage env id w)) = messages w
  ∧ error (final (deleteMessage env id w)) = Some "Failed to delete message"
  ∧ storage (final (deleteMessage env id w)) = storage w.
Proof. intros Hgw. unfold_flow. rewrite Hgw. done. Qed.

Lemma delete_failure_keeps_cache_witness :
  settled (deleteMessage (env_of offline) "m-42" (cached [m7; m42]))
    = Resolved false
  ∧ messages (final (deleteMessage (env_of offline) "m-42" (cached [m7; m42])))
    = [m7; m42].
Proof.
  destruct (delete_failure_keeps_cache (env_of offline) "m-42"
              (cached [m7; m42]) "Network request failed" eq_refl)
    as (Hs & Hm & _).
  split; [exact Hs | exact Hm].
Defined.

(** X9.  Each of the three flows turns [loading] on and clears the error
    slot before its first [await], with the cache and the store still as it
    found them, and turns [loading] off when it completes, on success and
    on failure alike and whatever the flag was when it started. *)
Theorem loading_brackets_flows env c t id w :
  let bracketed {A} (run : Run A) :=
    (∃ w1 rest, suspended run = w1 :: rest
                ∧ loading w1 = true ∧ error w1 = None
                ∧ messages w1 = messages w ∧ storage w1 = storage w)
    ∧ loading (final run) = false in
  bracketed (loadMessages env c w)
  ∧ bracketed (sendMessage env c t w)
  ∧ bracketed (deleteMessage env id w).
Proof.
  intros bracketed. unfold bracketed. split; [|split].
  - flow_cases env (messagesService.getMessages (client env) (net env) c);
      try destruct (storage w !! storage_key c); reduce_flow;
      (split; [by eexists _, _|done]).
  - flow_cases env (messagesService.sendMessage (client env) (net env) c t);
      (split; [by eexists _, _|done]).
  - unfold_flow.
    destruct (messagesService.deleteMessage (client env) (net env) id);
      reduce_flow;
      (split; [by eexists _, _|done]).
Qed.

(** X10.  No flow ever rejects: whatever the gateway and the store do, the
    promise of each flow resolves. *)
Theorem flows_never_reject env c t id w :
  (∃ out, settled (loadMessages env c w) = Resolved out)
  ∧ (∃ sent, settled (sendMessage env c t w) = Resolved sent)
  ∧ (∃ ok, settled (deleteMessage env id w) = Resolved ok).
Proof.
  split; [|split].
  - flow_cases env (messagesService.getMessages (client env) (net env) c);
      try destruct (storage w !! storage_key c); by eexists.
  - apply sendMessage_resolves.
  - unfold_flow.
    destruct (messagesService.deleteMessage (client env) (net env) id);
      by eexists.
Qed.


(** X12.  A message sent and persisted survives the next load of its
    conversation: the load publishes an entry with its [uuid], and the
    persisted entry itself when the gateway lists no entry with that
    [uuid]. *)
Theorem sent_message_survives_load env1 env2 c t w response history_ :
  messagesService.sendMessage (client env1) (net env1) c t = Resolved response →
  getItem_rejects env1 = None → setItem_rejects env1 = None →
  messagesService.getMessages (client env2) (net env2) c = Resolved history_ →
  getItem_rejects env2 = None →
  let newMessage :=
    default (fallbackMessage env1 response t) (ApiClient.message response) in
  let remote := default [] (ApiClient.messages history_) in
  let reloaded := loadMessages env2 c (final (sendMessage env1 c t w)) in
  settled reloaded
    = Resolved (merge remote
                  (default [] (storage w !! storage_key c) ++ [newMessage]))
  ∧ (∃ m, m ∈ messages (final reloaded) ∧ uuid m = uuid newMessage)
  ∧ ((∀ r, r ∈ remote → uuid r ≠ uuid newMessage) →
     newMessage ∈ messages (final reloaded)).
Proof.
  intros Hsend Hget1 Hset1 Hload Hget2 newMessage remote reloaded.
  destruct (sendMessage_resolved env1 c t w response Hsend) as (_ & Hst & _).
  destruct (Hst Hget1 Hset1) as (_ & Hsto & _). fold newMessage in Hsto.
  destruct (loadMessages_resolved env2 c (final (sendMessage env1 c t w))
              history_ Hload Hget2) as (Hs & Hm & _).
  rewrite Hsto, lookup_insert_eq in Hs, Hm. cbn [default] in Hs, Hm.
  fold remote reloaded in Hs, Hm.
  split; [exact Hs|]. rewrite Hm. split.
  - apply merge_uuid_kept. right. apply elem_of_app. right. left.
  - intros Hfresh. apply elem_of_merge. right.
    split; [apply elem_of_app; right; left | exact Hfresh].
Qed.

Lemma sent_message_survives_load_witness :
  let reloaded :=
    loadMessages (env_later (answers (history [m7]))) "C1"
      (final (sendMessage (env_of (answers (confirmation m42))) "C1" "hi" w0)) in
  settled reloaded = Resolved [m7; m42] ∧ m42 ∈ messages (final reloaded).
Proof.
  destruct (sent_message_survives_load
              (env_of (answers (confirmation m42)))
              (env_later (answers (history [m7]))) "C1" "hi" w0
              (confirmation m42) (history [m7])
              eq_refl eq_refl eq_refl eq_refl eq_refl) as (Hs & _ & Hin).
  split; [exact Hs|]. apply Hin.
  intros r Hr E. apply list_elem_of_singleton in Hr. subst r. discriminate E.
Defined.

(** X13.  A deleted message that is still in the store comes back: after a
    successful delete, a load whose gateway list no longer has that [uuid]
    publishes the stored entry again. *)
Theorem deleted_message_returns env1 env2 c id w gone history_ m :
  messagesService.deleteMessage (client env1) (net env1) id = Resolved gone →
  messagesService.getMessages (client env2) (net env2) c = Resolved history_ →
  getItem_rejects env2 = None →
  m ∈ default [] (storage w !! storage_key c) →
  uuid m = Some id →
  (∀ r, r ∈ default [] (ApiClient.messages history_) → uuid r ≠ Some id) →
  (∀ m', m' ∈ messages (final (deleteMessage env1 id w)) → uuid m' ≠ Some id)
  ∧ m ∈ messages (final (loadMessages env2 c (final (deleteMessage env1 id w)))).
Proof.
  intros Hdel Hload Hget Hin Hid Hremote.
  destruct (deleteMessage_resolved env1 id w gone Hdel) as (_ & Hm & Hsto).
  split.
  - intros m'. rewrite Hm, list_elem_of_filter, negb_True, bool_decide_spec.
    tauto.
  - destruct (loadMessages_resolved env2 c (final (deleteMessage env1 id w))
                history_ Hload Hget) as (_ & Hm2 & _).
    rewrite Hm2, Hsto. apply elem_of_merge. right. split; [exact Hin|].
    intros r Hr. rewrite Hid. by apply Hremote.
Qed.

Lemma deleted_message_returns_witness :
  m42 ∈ messages (final (loadMessages (env_later (answers (history []))) "C1"
           (final (deleteMessage (env_of (answers (bare None)))
                                 "m-42" after_send)))).
Proof.
  destruct (deleted_message_returns
              (env_of (answers (bare None))) (env_later (answers (history [])))
              "C1" "m-42" after_send (bare None) (history []) m42
              eq_refl eq_refl eq_refl) as (_ & Hback).
  - change (m42 ∈ [m42]). left.
  - reflexivity.
  - intros r Hr. by apply elem_of_nil in Hr.
  - exact Hback.
Defined.

(** X14.  Successful deletes compose: deleting the same id again changes
    nothing more, and two deletes leave the same cache in either order. *)
Theorem deletes_compose env id1 id2 w r1 r2 :
  messagesService.deleteMessage (client env) (net env) id1 = Resolved r1 →
  messagesService.deleteMessage (client env) (net env) id2 = Resolved r2 →
  messages (final (deleteMessage env id1 (final (deleteMessage env id1 w))))
    = messages (final (deleteMessage env id1 w))
  ∧ messages (final (deleteMessage env id2 (final (deleteMessage env id1 w))))
    = messages (final (deleteMessage env id1 (final (deleteMessage env id2 w)))).
Proof.
  intros H1 H2.
  pose proof (λ w', proj1 (proj2 (deleteMessage_resolved env id1 w' r1 H1)))
    as D1.
  pose proof (λ w', proj1 (proj2 (deleteMessage_resolved env id2 w' r2 H2)))
    as D2.
  rewrite !D1, !D2, !D1. split.
  - apply filter_all. by intros m [Hk _]%list_elem_of_filter.
  - induction (messages w) as [|x l IH]; [done|].
    rewrite !(filter_cons _ x l).
    repeat (case_decide; rewrite ?filter_cons); try done; by f_equal.
Qed.

Lemma deletes_compose_witness :
  let env := env_of (answers (bare None)) in
  messages (final (deleteMessage env "m-7"
             (final (deleteMessage env "m-42" (cached [m7; m42; m7'])))))
  = messages (final (deleteMessage env "m-42"
             (final (deleteMessage env "m-7" (cached [m7; m42; m7']))))).
Proof.
  intros env.
  exact (proj2 (deletes_compose env "m-42" "m-7" (cached [m7; m42; m7'])
                  (bare None) (bare None) eq_refl eq_refl)).
Defined.

(** X15.  The cache is one list for all conversations: a send to another
    conversation appends to it, and the next load of this conversation
    replaces it, returning what it would have returned without that send. *)
Theorem load_ignores_other_conversation env1 env2 c c' t w :
  c' ≠ c →
  settled (loadMessages env2 c (final (sendMessage env1 c' t w)))
    = settled (loadMessages env2 c w)
  ∧ (error (final (loadMessages env2 c w)) = None →
     messages (final (loadMessages env2 c (final (sendMessage env1 c' t w))))
     = messages (final (loadMessages env2 c w))).
Proof.
  intros Hc.
  pose proof (sendMessage_store_frame env1 c' t w c (not_eq_sym Hc))
    as Hframe.
  set (w' := final (sendMessage env1 c' t w)) in *.
  unfold_flow.
  destruct (messagesService.getMessages (client env2) (net env2) c);
    [|done].
  destruct (getItem_rejects env2); reduce_flow; [split; [done|intros [=]]|].
  rewrite Hframe.
  by destruct (storage w !! storage_key c).
Qed.

Lemma load_ignores_other_conversation_witness :
  settled (loadMessages (env_later (answers (history [m7]))) "C1"
             (final (sendMessage (env_of (answers (confirmation m42)))
                                 "C2" "hi" w0)))
  = Resolved [m7].
Proof.
  destruct (load_ignores_other_conversation
              (env_of (answers (confirmation m42)))
              (env_later (answers (history [m7]))) "C1" "C2" "hi" w0)
    as (Hs & _); [discriminate|].
  rewrite Hs. vm_compute. reflexivity.
Defined.

End flows_more.

(** ** Properties of the gateway *)
Section gateway_more.
Import ApiClient ApiClientRest.

(** X16.  [request] resolves exactly when the network answered with an ok
    response whose body parses, and then with that body; a non-ok response
    never resolves, whatever its body. *)
Theorem request_resolves_iff client net endpoint options r :
  request client net endpoint options = Resolved r
  ↔ net (fetch_call client endpoint options) = ResponseOk (Resolved r).
Proof.
  unfold request.
  destruct (net (fetch_call client endpoint options))
    as [?|json|? [[?|]|?]];
    split; intros H; simplify_eq; done.
Qed.

(** X17.  The message of a failed [request]: the server's own message when
    the error body parses to a value carrying a non-empty one; the status
    line when the body is unreadable, or parses to a value other than
    [null] with no message or an empty one; and when the body parses to
    [null], the [TypeError] of reading [message] off it, never the status
    line.  A network failure and an unparseable ok body pass their reason
    through. *)
Theorem request_error_message client net endpoint options :
  let answer := net (fetch_call client endpoint options) in
  let result := request client net endpoint options in
  (∀ status m, m ≠ "" →
     answer
       = ResponseNotOk status (Resolved (Some {| error_message := Some m |})) →
     result = Rejected m)
  ∧ (∀ status body,
       answer = ResponseNotOk status body →
       (∀ d, body = Resolved d →
             ∃ errorData, d = Some errorData
               ∧ (error_message errorData = None
                  ∨ error_message errorData = Some "")) →
       result = Rejected ("API request failed with status " +:+ pretty status))
  ∧ (∀ status,
       answer = ResponseNotOk status (Resolved None) →
       result = Rejected null_body_error
       ∧ result
         ≠ Rejected ("API request failed with status " +:+ pretty status))
  ∧ (∀ reason, answer = FetchRejected reason → result = Rejected reason)
  ∧ (∀ e, answer = ResponseOk (Rejected e) → result = Rejected e).
Proof.
  intros answer result. unfold result, request. fold answer.
  split; [|split; [|split; [|split]]].
  - intros status m Hm ->. cbn. by rewrite bool_decide_eq_false_2.
  - intros status body -> Hbody. destruct body as [d|e]; [|done].
    destruct (Hbody d eq_refl) as (errorData & -> & [->| ->]); done.
  - intros status ->. split; [done|].
    unfold null_body_error. intros H. injection H as H.
    cbn [String.append] in H. discriminate H.
  - by intros reason ->.
  - by intros e ->.
Qed.

(** X18.  What each verb puts on the wire: [post], [put], [patch] and
    [delete] issue exactly one call, to [baseUrl + endpoint], with their
    method, the data as body, and the two headers [Content-Type] and
    [Authorization: Bearer apiKey]; [get] issues the same without body and
    without [Content-Type].  A network serving only that call is served. *)
Theorem verbs_issue_expected_call client endpoint data r :
  post client (serves_only (json_call client "POST" endpoint data) r)
       endpoint data = Resolved r
  ∧ put client (serves_only (json_call client "PUT" endpoint data) r)
        endpoint data = Resolved r
  ∧ patch client (serves_only (json_call client "PATCH" endpoint data) r)
          endpoint data = Resolved r
  ∧ ApiClient.delete client
      (serves_only (json_call client "DELETE" endpoint data) r)
      endpoint data = Resolved r
  ∧ ∀ config,
      get client
        (serves_only
           {| url := baseUrl client +:+ endpoint;
              init := {| method := Some "GET"; body := None;
                         headers := {[ "Authorization" :=
                                         "Bearer " +:+ apiKey client ]} |} |}
           r)
        endpoint config = Resolved r.
Proof.
  assert (∀ verb, fetch_call client endpoint
            {| method := Some verb; body := data; headers := json_headers |}
          = json_call client verb endpoint data) as Hcall.
  { intros verb. unfold fetch_call, json_call, json_headers.
    cbn [method body headers]. do 2 f_equal;
      try by rewrite insert_union_singleton_l. }
  repeat split;
    try (unfold post, put, patch, ApiClient.delete, request, serves_only;
         rewrite Hcall; by rewrite decide_True).
  intros config. unfold get, request, serves_only, fetch_call.
  cbn [method body headers]. rewrite (left_id_L ∅ (∪)).
  by rewrite decide_True.
Qed.

(** X19.  [__request] differs from [request] in one case only, a non-ok
    response whose body does not parse: there it rejects with the parser's
    error instead of the status line.  On every other answer the two
    agree. *)
Theorem __request_agrees_with_request client net endpoint options :
  ((∀ status e, net (fetch_call client endpoint options)
                ≠ ResponseNotOk status (Rejected e)) →
   __request client net endpoint options
   = request client net endpoint options)
  ∧ (∀ status e,
       net (fetch_call client endpoint options)
         = ResponseNotOk status (Rejected e) →
       __request client net endpoint options = Rejected e
       ∧ request client net endpoint options
         = Rejected ("API request failed with status " +:+ pretty status)).
Proof.
  unfold __request, request. split.
  - intros Hne.
    destruct (net (fetch_call client endpoint options))
      as [?|?|s [[?|]|e]];
      try done.
    by destruct (Hne s e).
  - by intros status e ->.
Qed.

(** X20.  The client is a singleton: once [getInstance] has run, every
    later call returns the instance built first, whatever the environment
    variables have become, and leaves the static field as it is. *)
Theorem getInstance_singleton url1 key1 url2 key2 instance :
  let first := getInstance url1 key1 instance in
  getInstance url2 key2 (snd first) = (fst first, snd first)
  ∧ snd first = Some (fst first)
  ∧ (instance = None → fst first = {| baseUrl := url1; apiKey := key1 |}).
Proof.
  intros first. unfold first, getInstance.
  destruct instance; cbn; repeat split; done.
Qed.

End gateway_more.

(** ** Properties of the conversation and contact flows *)
Section directory.
Import Provider.

Ltac unfold_flow :=
  cbv [loadConversations loadContactDetails updateContact deleteConversation
       clearError try_catch_finally mbind mret Flow_bind Flow_ret flow_bind
       flow_ret await setLoading setError lift with_world
       AppProvider.setLoading AppProvider.setError
       setConversations setCurrentContact];
  cbn [settled final suspended world conversations currentContact
       AppProvider.messages AppProvider.loading AppProvider.error
       AppProvider.storage app fmap list_fmap].

(** X21.  [deleteConversation]: when the service call succeeds the rows with
    that [uuid] leave the list, the others stay in order, and the call
    resolves with [true]; when it fails the list is as before, the error
    slot is set and the call resolves with [false].  Either way the message
    cache, the stored messages and the current contact are not touched. *)
Theorem deleteConversation_outcome svc contactUUID s :
  (conversationsService.deleteConversation svc contactUUID = Resolved () →
   settled (deleteConversation svc contactUUID s) = Resolved true
   ∧ conversations (final (deleteConversation svc contactUUID s))
     = filter (λ conv, Contact.uuid conv ≠ contactUUID) (conversations s)
   ∧ AppProvider.error (world (final (deleteConversation svc contactUUID s)))
     = None)
  ∧ (∀ e, conversationsService.deleteConversation svc contactUUID = Rejected e →
     settled (deleteConversation svc contactUUID s) = Resolved false
     ∧ conversations (final (deleteConversation svc contactUUID s))
       = conversations s
     ∧ AppProvider.error (world (final (deleteConversation svc contactUUID s)))
       = Some "Failed to delete conversation")
  ∧ AppProvider.messages (world (final (deleteConversation svc contactUUID s)))
    = AppProvider.messages (world s)
  ∧ AppProvider.storage (world (final (deleteConversation svc contactUUID s)))
    = AppProvider.storage (world s)
  ∧ currentContact (final (deleteConversation svc contactUUID s))
    = currentContact s.
Proof.
  unfold_flow.
  destruct (conversationsService.deleteConversation svc contactUUID) as [[]|e];
    cbn [settled final world conversations currentContact
         AppProvider.messages AppProvider.error AppProvider.storage];
    repeat split; try done.
  apply list_filter_iff. intros conv.
  by rewrite negb_True, bool_decide_spec.
Qed.

Lemma deleteConversation_outcome_example :
  conversations (final (deleteConversation (Rows.conversations_ok [])
                          "c-1" Rows.listing)) = [Rows.bob]
  ∧ AppProvider.messages
      (world (final (deleteConversation (Rows.conversations_ok [])
                       "c-1" Rows.listing))) = [Sample.m7].
Proof.
  destruct (deleteConversation_outcome (Rows.conversations_ok []) "c-1"
              Rows.listing) as (Hok & _ & Hm & _).
  destruct (Hok eq_refl) as (_ & Hc & _).
  split; [rewrite Hc; vm_compute; reflexivity | exact Hm].
Defined.

(** X22.  [updateContact], when the service resolves with a contact: the
    list keeps its length and order; a row with another [uuid] is the same
    row; a row with the given [uuid] takes every property of the returned
    contact and keeps its own for the rest; the current contact becomes the
    returned one.  If the returned contact carries the given [uuid], the
    [uuid]s of the list are unchanged. *)
Theorem updateContact_rows svc contactUUID data s ct :
  contactsService.updateContact svc contactUUID data = Resolved (Some ct) →
  let after := final (updateContact svc contactUUID data s) in
  settled (updateContact svc contactUUID data s) = Resolved (Some ct)
  ∧ currentContact after = Some ct
  ∧ length (conversations after) = length (conversations s)
  ∧ (∀ i conv, conversations s !! i = Some conv →
       ∃ conv', conversations after !! i = Some conv'
         ∧ (Contact.uuid conv ≠ contactUUID → conv' = conv)
         ∧ (Contact.uuid conv = contactUUID →
            Contact.uuid conv' = Contact.uuid ct
            ∧ ∀ k, Contact.props conv' !! k
                   = match Contact.props ct !! k with
                     | Some v => Some v
                     | None => Contact.props conv !! k
                     end))
  ∧ (Contact.uuid ct = contactUUID →
     Contact.uuid <$> conversations after = Contact.uuid <$> conversations s).
Proof.
  intros Hsvc after. unfold after. unfold_flow. rewrite Hsvc.
  cbn [settled final conversations currentContact].
  split; [done|]. split; [done|]. split; [apply length_fmap|]. split.
  - intros i conv Hi. eexists. split.
    { rewrite list_lookup_fmap, Hi. reflexivity. }
    unfold updated_row. case_bool_decide as Hu; split; try done.
    intros _. split; [done|]. intros k. cbn [Contact.spread Contact.props].
    rewrite lookup_union. by destruct (Contact.props ct !! k),
      (Contact.props conv !! k).
  - intros Hct. rewrite <- list_fmap_compose. apply list_fmap_ext.
    intros i conv _. cbn. unfold updated_row.
    case_bool_decide as Hu; [|done]. cbn. congruence.
Qed.

Lemma updateContact_rows_witness :
  conversations (final (updateContact (Rows.contacts_ok (Some Rows.ada_renamed))
                          "c-1" ∅ Rows.listing))
  = [ {| Contact.uuid := "c-1";
         Contact.props := {[ "name" := "Ada L."; "phone_number" := "4420" ]} |};
      Rows.bob ]
  ∧ currentContact
      (final (updateContact (Rows.contacts_ok (Some Rows.ada_renamed))
                "c-1" ∅ Rows.listing)) = Some Rows.ada_renamed.
Proof.
  destruct (updateContact_rows (Rows.contacts_ok (Some Rows.ada_renamed))
              "c-1" ∅ Rows.listing Rows.ada_renamed eq_refl)
    as (_ & Hc & _).
  split; [vm_compute; reflexivity | exact Hc].
Defined.

(** X23.  [loadConversations] replaces the list with what the service
    returned; when the service fails it keeps the list it had and sets the
    error slot.  It resolves in both cases and ends with [loading] off. *)
Theorem loadConversations_outcome svc s :
  (∀ contacts,
     conversationsService.getConversations svc = Resolved contacts →
     conversations (final (loadConversations svc s)) = contacts
     ∧ AppProvider.error (world (final (loadConversations svc s))) = None)
  ∧ (∀ e,
       conversationsService.getConversations svc = Rejected e →
       conversations (final (loadConversations svc s)) = conversations s
       ∧ AppProvider.error (world (final (loadConversations svc s)))
         = Some "Failed to load conversations")
  ∧ settled (loadConversations svc s) = Resolved ()
  ∧ AppProvider.loading (world (final (loadConversations svc s))) = false.
Proof.
  unfold_flow.
  destruct (conversationsService.getConversations svc) as [l|e];
    cbn [settled final world conversations AppProvider.error
         AppProvider.loading];
    repeat split; intros; by simplify_eq.
Qed.

(** X24.  None of the conversation and contact flows touches the messages:
    the cache and the stored lists are the same after each of them, on
    success and on failure; each of them resolves, and each ends with
    [loading] off.  [clearError] changes the error slot and nothing else. *)
Theorem directory_flows_frame csvc ksvc contactUUID data s :
  let untouched {A} (run : Run A) :=
    AppProvider.messages (world (final run)) = AppProvider.messages (world s)
    ∧ AppProvider.storage (world (final run)) = AppProvider.storage (world s)
    ∧ AppProvider.loading (world (final run)) = false
    ∧ ∃ r, settled run = Resolved r in
  untouched (loadConversations csvc s)
  ∧ untouched (loadContactDetails ksvc contactUUID s)
  ∧ untouched (updateContact ksvc contactUUID data s)
  ∧ untouched (deleteConversation csvc contactUUID s)
  ∧ final (clearError s)
    = {| world := {| AppProvider.messages := AppProvider.messages (world s);
                     AppProvider.loading := AppProvider.loading (world s);
                     AppProvider.error := None;
                     AppProvider.storage := AppProvider.storage (world s) |};
         conversations := conversations s;
         currentContact := currentContact s |}.
Proof.
  intros untouched. unfold untouched. unfold_flow.
  destruct (conversationsService.getConversations csvc),
    (contactsService.getContact ksvc contactUUID),
    (contactsService.updateContact ksvc contactUUID data),
    (conversationsService.deleteConversation csvc contactUUID);
    cbn [settled final world AppProvider.messages AppProvider.storage
         AppProvider.loading];
    repeat split; try done; by eexists.
Qed.

End directory.

(** ** Properties of the chat screen *)
Section screen.
Import AppProvider Sample ChatScreen.

Ltac unfold_flow :=
  cbv [sendMessage loadMessages deleteMessage onPressDelete handleSendMessage
       try_catch_finally
       mbind mret Async_bind Async_ret async_bind async_ret
       getItem setItem await setLoading setError setMessages];
  cbn [settled final suspended messages loading error storage app].

Ltac reduce_flow :=
  cbn [settled final suspended messages loading error storage app default].

(** X25.  A failed flow hides the thread: after a load, a send or a delete
    that the gateway failed, the screen is the error view with that flow's
    message, although the cache still holds every message it held. *)
Theorem failure_shows_error_view env c t id w :
  (∀ e, messagesService.getMessages (client env) (net env) c = Rejected e →
        render (final (loadMessages env c w))
          = ErrorMessage "Failed to load messages"
        ∧ messages (final (loadMessages env c w)) = messages w)
  ∧ (∀ e, messagesService.sendMessage (client env) (net env) c t = Rejected e →
          render (final (sendMessage env c t w))
            = ErrorMessage "Failed to send message"
          ∧ messages (final (sendMessage env c t w)) = messages w)
  ∧ (∀ e, messagesService.deleteMessage (client env) (net env) id = Rejected e →
          render (final (deleteMessage env id w))
            = ErrorMessage "Failed to delete message"
          ∧ messages (final (deleteMessage env id w)) = messages w).
Proof.
  split; [|split]; intros e Hgw; unfold render; unfold_flow; rewrite Hgw;
    reduce_flow; done.
Qed.


Lemma truthy_or_else (u : option string) (b : string) :
  truthy u = true → u = Some (or_else u b).
Proof.
  destruct u as [s|]; [|done]. cbn.
  by case_bool_decide.
Qed.

(** X27.  The list keys are distinct whenever the messages have distinct,
    non-empty [uuid]s: the key of such a message is its [uuid]. *)
Theorem keyExtractor_unique (l : list Message) :
  NoDup (uuid <$> l) →
  Forall (λ item, isOutgoing item = true) l →
  NoDup (keyExtractor <$> l)
  ∧ Forall (λ item, uuid item = Some (keyExtractor item)) l.
Proof.
  intros Hnd Hout.
  assert (Forall (λ item, uuid item = Some (keyExtractor item)) l) as Hkey.
  { eapply Forall_impl; [exact Hout|].
    intros item Hitem. by apply truthy_or_else. }
  split; [|exact Hkey].
  apply (NoDup_fmap_1 Some). rewrite <- list_fmap_compose.
  erewrite list_fmap_ext; [exact Hnd|].
  intros i item Hi. cbn.
  rewrite Forall_forall in Hkey. symmetry. apply Hkey.
  by eapply list_elem_of_lookup_2.
Qed.

Lemma keyExtractor_unique_witness :
  NoDup (keyExtractor <$> [m7; m42]).
Proof.
  apply (keyExtractor_unique [m7; m42]).
  - apply NoDup_cons. split; [|apply NoDup_singleton].
    intros H. apply list_elem_of_singleton in H. discriminate H.
  - repeat constructor.
Defined.

(** X28.  The Delete button raises at most one alert, and only the failure
    one: no alert when the gateway delete succeeded, ['Failed to delete the
    message.'] when it failed.  The alert of its [catch] branch is never
    raised, because [deleteMessage] never rejects. *)
Theorem onPressDelete_alert env id w :
  (settled (onPressDelete env id w) = Resolved None
   ∨ settled (onPressDelete env id w)
     = Resolved (Some "Failed to delete the message."))
  ∧ (settled (onPressDelete env id w) = Resolved None
     ↔ ∃ response,
         messagesService.deleteMessage (client env) (net env) id
         = Resolved response)
  ∧ final (onPressDelete env id w) = final (deleteMessage env id w).
Proof.
  unfold_flow.
  destruct (messagesService.deleteMessage (client env) (net env) id);
    reduce_flow; (split; [auto|]); (split; [|done]); split;
    try done; eauto.
  by intros (? & ?).
Qed.

(** X29.  [handleSendMessage]: when the text is blank after trimming,
    nothing happens at all, no request, no state change, and the input keeps
    its text; otherwise the trimmed text is what is sent and the input is
    emptied afterwards whether the send succeeded or failed. *)
Theorem handleSendMessage_input (trim : string → string) env c text w :
  (trim text = "" →
   handleSendMessage trim env c text w
   = {| settled := Resolved text; final := w; suspended := [] |})
  ∧ (trim text ≠ "" →
     settled (handleSendMessage trim env c text w) = Resolved ""
     ∧ final (handleSendMessage trim env c text w)
       = final (sendMessage env c (trim text) w)).
Proof.
  unfold handleSendMessage. split; intros Htrim.
  - by rewrite bool_decide_eq_true_2.
  - rewrite bool_decide_eq_false_2 by done.
    destruct (sendMessage_resolves env c (trim text) w) as [sent Hs].
    cbv [mbind mret Async_bind Async_ret async_bind async_ret].
    destruct (sendMessage env c (trim text) w) as [s f tr].
    cbn [settled final] in *. by rewrite Hs.
Qed.

Lemma handleSendMessage_input_witness :
  settled (handleSendMessage (λ s, s) (env_of offline) "C1" "hi" (cached [m7]))
    = Resolved ""
  ∧ render (final (handleSendMessage (λ s, s) (env_of offline) "C1" "hi"
                     (cached [m7])))
    = ErrorMessage "Failed to send message".
Proof.
  destruct (handleSendMessage_input (λ s, s) (env_of offline) "C1" "hi"
              (cached [m7])) as (_ & Hsend).
  destruct Hsend as (Hs & Hf); [discriminate|].
  split; [exact Hs|]. rewrite Hf. vm_compute. reflexivity.
Defined.

End screen.

(** ** The identity of the fallback message *)
Section fallback_identity.
Import AppProvider ChatScreen.

Lemma pretty_N_go_nonempty (x : N) (s : string) :
  s ≠ "" → pretty_N_go x s ≠ "".
Proof.
  revert s. induction (N.lt_wf_0 x) as [x _ IH]; intros s Hs.
  assert (x = 0 ∨ 0 < x)%N as [->|Hx] by lia.
  - by rewrite pretty_N_go_0.
  - rewrite pretty_N_go_step by done. apply IH; [by apply N.div_lt|done].
Qed.

Lemma pretty_Z_nonempty (z : Z) : pretty z ≠ "".
Proof.
  destruct z as [|p|p]; [done| |done].
  unfold pretty, pretty_Z, pretty, pretty_positive, pretty, pretty_N.
  rewrite decide_False by done.
  rewrite pretty_N_go_step by done.
  by apply pretty_N_go_nonempty.
Qed.

Lemma or_else_nonempty (a : option string) (b : string) :
  b ≠ "" → or_else a b ≠ "".
Proof.
  intros Hb. unfold or_else. destruct a as [s|]; [|done].
  by case_bool_decide.
Qed.

(** X30.  The fallback object always has a non-empty [uuid]: it is drawn as
    an outgoing message and keyed by that [uuid].  When the response has no
    [uuid] of its own, two fallback objects share a [uuid] exactly when
    [Date.now()] read the same millisecond for both. *)
Theorem fallback_identity env response t :
  isOutgoing (fallbackMessage env response t) = true
  ∧ uuid (fallbackMessage env response t)
    = Some (keyExtractor (fallbackMessage env response t))
  ∧ (ApiClient.response_uuid response = None →
     ∀ env' response' t',
       ApiClient.response_uuid response' = None →
       (uuid (fallbackMessage env response t)
          = uuid (fallbackMessage env' response' t')
        ↔ Date_now env = Date_now env')).
Proof.
  assert (isOutgoing (fallbackMessage env response t) = true) as Hout.
  { unfold isOutgoing, fallbackMessage, truthy. cbn [uuid].
    apply negb_true_iff, bool_decide_eq_false_2, or_else_nonempty,
      pretty_Z_nonempty. }
  split; [exact Hout|]. split; [by apply truthy_or_else|].
  intros Hnone env' response' t' Hnone'.
  unfold fallbackMessage. cbn [uuid]. rewrite Hnone, Hnone'. cbn [or_else].
  split; [|by intros ->].
  intros [= H]. by apply (inj pretty) in H.
Qed.

End fallback_identity.

(** ** The gateway's error messages on concrete answers *)
Section gateway_examples.
Import ApiClient ApiClientRest.

Lemma request_error_message_example :
  request Sample.gateway
    (λ _, ResponseNotOk 404
            (Resolved (Some {| error_message := Some "Contact not found" |})))
    "/contacts/c1/messages"
    {| method := Some "GET"; body := None; headers := ∅ |}
  = Rejected "Contact not found"
  ∧ request Sample.gateway
      (λ _, ResponseNotOk 502 (Rejected "Unexpected token < in JSON"))
      "/contacts/c1/messages"
      {| method := Some "GET"; body := None; headers := ∅ |}
    = Rejected "API request failed with status 502"
  ∧ request Sample.gateway
      (λ _, ResponseNotOk 500 (Resolved None))
      "/contacts/c1/messages"
      {| method := Some "GET"; body := None; headers := ∅ |}
    = Rejected "Cannot read properties of null (reading 'message')".
Proof.
  split; [|split].
  - apply (proj1 (request_error_message Sample.gateway _ _ _) 404);
      [discriminate | reflexivity].
  - eapply (proj1 (proj2 (request_error_message Sample.gateway _ _ _)) 502);
      [reflexivity | intros d Hd; discriminate Hd].
  - eapply (proj1 (proj2 (proj2
              (request_error_message Sample.gateway _ _ _))) 500).
    reflexivity.
Defined.

Lemma __request_agrees_with_request_example :
  __request Sample.gateway
    (λ _, ResponseNotOk 502 (Rejected "Unexpected token < in JSON"))
    "/contacts/c1/messages"
    {| method := Some "GET"; body := None; headers := ∅ |}
  = Rejected "Unexpected token < in JSON"
  ∧ __request Sample.gateway Sample.offline "/contacts/c1/messages"
      {| method := Some "GET"; body := None; headers := ∅ |}
    = request Sample.gateway Sample.offline "/contacts/c1/messages"
        {| method := Some "GET"; body := None; headers := ∅ |}.
Proof.
  split.
  - eapply (proj2 (__request_agrees_with_request Sample.gateway _ _ _) 502).
    reflexivity.
  - apply (proj1 (__request_agrees_with_request Sample.gateway _ _ _)).
    intros status e H. discriminate H.
Defined.

End gateway_examples.
